(** * go-cli: a shallow embedding of the grammar-driven dispatcher

    The development follows the Go package [cli]: the byte-string helpers of
    the [strings] package that the code calls, the grammar model
    (Variable, Option, Argument, Command, Config), the validator, the help
    generator, and the three resolvers of [cli.go] (extractCommand,
    extractArgument, extractFlags) together with getOutput and
    getHelpOutput.  Go strings are byte sequences; they are modelled by
    [string] (a list of 8-bit [ascii]).  Go maps with string keys are
    [gmap string _]. *)

From Stdlib Require Import String Ascii List Arith Lia Permutation.
From stdpp Require Import base option list strings gmap.

Local Open Scope string_scope.

(** ** The functions of Go's [strings] package used by the program *)

Module GoStrings.

(** [len(s)] *)
Definition len (s : string) : nat := String.length s.

(** [s[i:]] *)
Fixpoint sliceFrom (s : string) (i : nat) {struct i} : string :=
  match i, s with
  | 0, _ => s
  | S i', String _ s' => sliceFrom s' i'
  | S _, EmptyString => EmptyString
  end.

(** [s[:i]] *)
Fixpoint sliceTo (s : string) (i : nat) {struct i} : string :=
  match i, s with
  | 0, _ => EmptyString
  | S i', String a s' => String a (sliceTo s' i')
  | S _, EmptyString => EmptyString
  end.

(** [strings.HasPrefix(s, prefix)] *)
Fixpoint HasPrefix (s prefix : string) {struct prefix} : bool :=
  match prefix, s with
  | EmptyString, _ => true
  | String _ _, EmptyString => false
  | String b prefix', String a s' =>
      if Ascii.eqb a b then HasPrefix s' prefix' else false
  end.

(** [strings.HasSuffix(s, suffix)]:
    [len(s) >= len(suffix) && s[len(s)-len(suffix):] == suffix] *)
Definition HasSuffix (s suffix : string) : bool :=
  (len suffix <=? len s)%nat && String.eqb (sliceFrom s (len s - len suffix)) suffix.

(** [strings.Index(s, substr)]: the byte index of the first occurrence of
    [substr] in [s]; Go's [-1] is [None]. *)
Fixpoint Index (s substr : string) : option nat :=
  if HasPrefix s substr then Some 0
  else match s with
       | EmptyString => None
       | String _ s' => option_map S (Index s' substr)
       end.

(** membership of a byte in a cutset of ASCII characters *)
Fixpoint inCutset (a : ascii) (cutset : string) : bool :=
  match cutset with
  | EmptyString => false
  | String c cutset' => Ascii.eqb a c || inCutset a cutset'
  end.

(** [strings.ContainsAny(s, chars)] *)
Fixpoint ContainsAny (s chars : string) : bool :=
  match s with
  | EmptyString => false
  | String a s' => inCutset a chars || ContainsAny s' chars
  end.

(** [strings.TrimLeft(s, cutset)] *)
Fixpoint TrimLeft (s cutset : string) : string :=
  match s with
  | EmptyString => EmptyString
  | String a s' => if inCutset a cutset then TrimLeft s' cutset else s
  end.

(** [strings.TrimRight(s, cutset)] *)
Fixpoint TrimRight (s cutset : string) : string :=
  match s with
  | EmptyString => EmptyString
  | String a s' =>
      match TrimRight s' cutset with
      | EmptyString => if inCutset a cutset then EmptyString else String a EmptyString
      | t => String a t
      end
  end.

(** [strings.Trim(s, cutset)] *)
Definition Trim (s cutset : string) : string :=
  TrimRight (TrimLeft s cutset) cutset.

(** [strings.Split(s, sep)] for a separator of one byte (the program
    only splits on [" "]).  [Split("", sep)] is the one-element list
    [[""]]. *)
Fixpoint Split (s : string) (sep : ascii) : list string :=
  match s with
  | EmptyString => [EmptyString]
  | String a s' =>
      if Ascii.eqb a sep then EmptyString :: Split s' sep
      else match Split s' sep with
           | h :: t => String a h :: t
           | [] => [String a EmptyString]
           end
  end.

(** [strings.Join(elems, sep)] *)
Fixpoint Join (elems : list string) (sep : string) : string :=
  match elems with
  | [] => EmptyString
  | [e] => e
  | e :: elems' => e +:+ sep +:+ Join elems' sep
  end.

(** [utf8.RuneCountInString(s)]: the number of runes of [s].  A byte that
    does not start a well-formed UTF-8 encoding counts as one rune of
    width one: a byte outside [0xC2..0xF4], an encoding cut short by the
    end of the string, or a continuation byte outside the range the first
    byte accepts. *)
Definition inRange (lo hi : nat) (c : ascii) : bool :=
  (lo <=? nat_of_ascii c)%nat && (nat_of_ascii c <=? hi)%nat.

Fixpoint RuneCountInString (s : string) : nat :=
  match s with
  | EmptyString => 0
  | String c s' =>
      let b := nat_of_ascii c in
      if (b <? 128)%nat then S (RuneCountInString s')
      else if (b <? 194)%nat || (244 <? b)%nat then S (RuneCountInString s')
      else if (b <? 224)%nat then
        match s' with
        | String c1 s1 =>
            if inRange 128 191 c1 then S (RuneCountInString s1)
            else S (RuneCountInString s')
        | EmptyString => S (RuneCountInString s')
        end
      else if (b <? 240)%nat then
        let lo := if (b =? 224)%nat then 160 else 128 in
        let hi := if (b =? 237)%nat then 159 else 191 in
        match s' with
        | String c1 (String c2 s2) =>
            if inRange lo hi c1 && inRange 128 191 c2 then S (RuneCountInString s2)
            else S (RuneCountInString s')
        | _ => S (RuneCountInString s')
        end
      else
        let lo := if (b =? 240)%nat then 144 else 128 in
        let hi := if (b =? 244)%nat then 143 else 191 in
        match s' with
        | String c1 (String c2 (String c3 s3)) =>
            if inRange lo hi c1 && inRange 128 191 c2 && inRange 128 191 c3
            then S (RuneCountInString s3)
            else S (RuneCountInString s')
        | _ => S (RuneCountInString s')
        end
  end.

Fixpoint spaces (n : nat) : string :=
  match n with
  | 0 => EmptyString
  | S n' => String " " (spaces n')
  end.

(** [fmt.Sprintf("%-<width>s", s)]: [s] left-justified in a field of
    [width] runes; fmt pads by [width - utf8.RuneCountInString(s)]. *)
Definition padRight (width : nat) (s : string) : string :=
  s +:+ spaces (width - RuneCountInString s).

End GoStrings.

Import GoStrings.

(** [var whitespaceCharacters = " \n\r\t"] *)
Definition LF : string := String (ascii_of_nat 10) EmptyString.
Definition CR : string := String (ascii_of_nat 13) EmptyString.
Definition TAB : string := String (ascii_of_nat 9) EmptyString.
Definition DQ : string := String (ascii_of_nat 34) EmptyString.
Definition whitespaceCharacters : string := " " +:+ LF +:+ CR +:+ TAB.
Definition specialWhitespace : string := LF +:+ CR +:+ TAB.

(** [%s] inside escaped double quotes *)
Definition quoted (s : string) : string := DQ +:+ s +:+ DQ.

(** ** Errors

    Every [fmt.Errorf] site of the package is one constructor; [Error]
    renders the message the Go error carries. *)

Inductive error : Type :=
  (* Variable_.validate *)
  | ErrEmptyVariableLabel
  | ErrInvalidVariableLabel (label : string)
  (* Option.validate *)
  | ErrEmptyOptionLabel
  | ErrInvalidOptionLabel (label : string)
  | ErrNoShortNoLong
  | ErrShortDash (short : string)
  | ErrShortLength (short : string)
  | ErrShortWhitespace (short : string)
  | ErrShortInvalidChars (short : string)
  | ErrLongDash (long : string)
  | ErrLongLength (long : string)
  | ErrLongWhitespace (long : string)
  | ErrLongInvalidChars (long : string)
  | ErrInOption (label : string) (err : error)
  (* Argument.validate *)
  | ErrArgumentLabelWhitespace (label : string)
  | ErrArgumentLabelSpacesStart (label : string)
  | ErrArgumentLabelSpacesEnd (label : string)
  | ErrInArgument (label : string) (err : error)
  | ErrMultipleOptionLabel (arg label : string)
  | ErrMultipleOptionShort (arg short : string)
  | ErrMultipleOptionLong (arg long : string)
  (* Command.validate *)
  | ErrEmptyCommandLabel
  | ErrInvalidCommandLabel (label : string)
  | ErrNoArguments (label : string)
  | ErrInCommand (label : string) (err : error)
  | ErrMultipleArgumentLabel (cmd label : string)
  (* LoadConfig *)
  | ErrMissingExitCmd
  | ErrMissingHelpCmd
  | ErrMissingCommands
  | ErrCommandIsExitCmd (exitCmd : string)
  | ErrCommandIsHelpCmd (helpCmd : string)
  (* extractCommand, extractArgument, extractFlags *)
  | ErrUnableToFindCommand (label : string)
  | ErrNoValidArgument (cmd : string)
  | ErrMissingVariable (variable option : string)
  | ErrRequiredOptionMissingVariable (option variable : string)
  | ErrInvalidText (s : string).

Fixpoint Error (e : error) : string :=
  match e with
  | ErrEmptyVariableLabel => "empty variable label detected"
  | ErrInvalidVariableLabel l =>
      "invalid variable label " +:+ quoted l +:+ ", invalid whitespace characters detected"
  | ErrEmptyOptionLabel => "empty option label detected"
  | ErrInvalidOptionLabel l =>
      "invalid option label " +:+ quoted l +:+ ", invalid whitespace characters detected"
  | ErrNoShortNoLong => "at least one of option short or option long must be provided"
  | ErrShortDash s =>
      "invalid option short " +:+ quoted s +:+ ", must start with a single dash (-)"
  | ErrShortLength s =>
      "invalid option short " +:+ quoted s
        +:+ ", must be a single dash (-) followed by a single character"
  | ErrShortWhitespace s =>
      "invalid option short " +:+ quoted s +:+ ", whitespace characters detected"
  | ErrShortInvalidChars s =>
      "invalid option short " +:+ quoted s +:+ ", invalid characters detected"
  | ErrLongDash l =>
      "invalid option long " +:+ quoted l +:+ ", must start with a double dash (--)"
  | ErrLongLength l =>
      "invalid option long " +:+ quoted l +:+ ", must be longer than two characters"
  | ErrLongWhitespace l =>
      "invalid option long " +:+ quoted l +:+ ", special whitespace characters detected"
  | ErrLongInvalidChars l =>
      "invalid option long " +:+ quoted l +:+ ", invalid characters detected"
  | ErrInOption l err => "option " +:+ quoted l +:+ ", " +:+ Error err
  | ErrArgumentLabelWhitespace l =>
      "invalid argument label " +:+ quoted l
        +:+ ", invalid special whitespace characters detected"
  | ErrArgumentLabelSpacesStart l =>
      "invalid argument label " +:+ quoted l +:+ ", spaces detected at start"
  | ErrArgumentLabelSpacesEnd l =>
      "invalid argument label " +:+ quoted l +:+ ", spaces detected at end"
  | ErrInArgument l err => "argument " +:+ quoted l +:+ ", " +:+ Error err
  | ErrMultipleOptionLabel a l =>
      "argument " +:+ quoted a +:+ ", multiple occurrences of the option label " +:+ quoted l
  | ErrMultipleOptionShort a s =>
      "argument " +:+ quoted a +:+ ", multiple occurrences of the option short " +:+ quoted s
  | ErrMultipleOptionLong a l =>
      "argument " +:+ quoted a +:+ ", multiple occurrences of the option long " +:+ quoted l
  | ErrEmptyCommandLabel => "empty command label detected"
  | ErrInvalidCommandLabel l =>
      "invalid command label " +:+ quoted l +:+ ", invalid whitespace characters detected"
  | ErrNoArguments l => "command " +:+ quoted l +:+ " requires at least one argument"
  | ErrInCommand l err => "command " +:+ quoted l +:+ ", " +:+ Error err
  | ErrMultipleArgumentLabel c l =>
      "command " +:+ quoted c +:+ ", multiple occurrences of the argument label " +:+ quoted l
  | ErrMissingExitCmd => "missing/empty exit command " +:+ quoted "exitCmd"
  | ErrMissingHelpCmd => "missing/empty help command " +:+ quoted "helpCmd"
  | ErrMissingCommands => "missing/empty commands " +:+ quoted "commands"
  | ErrCommandIsExitCmd c => "command cannot share same label as exit command " +:+ quoted c
  | ErrCommandIsHelpCmd c => "command cannot share same label as help command " +:+ quoted c
  | ErrUnableToFindCommand l => "unable to find command " +:+ quoted l
  | ErrNoValidArgument c =>
      "invalid use of the " +:+ quoted c +:+ " command, no valid argument provided"
  | ErrMissingVariable v o =>
      "missing variable " +:+ quoted v +:+ " for option " +:+ quoted o
  | ErrRequiredOptionMissingVariable o v =>
      "required option " +:+ quoted o +:+ " missing required variable " +:+ quoted v
  | ErrInvalidText s => "invalid text " +:+ quoted s +:+ " detected"
  end.

(** A Go call returning [(value, error)] : the value is only used when the
    error is [nil]. *)
Inductive result (A : Type) : Type :=
  | Ok (a : A)
  | Err (e : error).
Arguments Ok {A} a.
Arguments Err {A} e.

Definition bind {A B : Type} (r : result A) (k : A -> result B) : result B :=
  match r with
  | Ok a => k a
  | Err e => Err e
  end.

Notation "'try' x ':=' r 'in' k" := (bind r (fun x => k))
  (at level 10, x name, r at level 100, k at level 200).
Notation "'check' r 'in' k" := (bind r (fun _ : unit => k))
  (at level 10, r at level 100, k at level 200).

(** [if cond { return err }] *)
Definition failIf (cond : bool) (e : error) : result unit :=
  if cond then Err e else Ok tt.

Definition isOk {A : Type} (r : result A) : bool :=
  match r with Ok _ => true | Err _ => false end.

(** ** The grammar model and its validator *)

(** [s1 == s2] on Go strings *)
Notation "a == b" := (String.eqb a b) (at level 70, no associativity).
Notation "a != b" := (negb (String.eqb a b)) (at level 70, no associativity).

Module Variable_.

Record t : Type := {
  Label : string;
  Required : bool;
  Default : string
}.

(** [func (va Variable) validate() error] *)
Definition validate (va : t) : result unit :=
  check failIf (Label va == "") ErrEmptyVariableLabel in
  check failIf (ContainsAny (Label va) specialWhitespace)
               (ErrInvalidVariableLabel (Label va)) in
  Ok tt.

End Variable_.

Module Option.

(** [Variable *Variable] is [nil] or points to a Variable; the field and
    the type are spelled [Variable_] here. *)
Record t : Type := {
  Label : string;
  Short : string;
  Long : string;
  Variable_ : option Variable_.t;
  HelpMsg : string
}.

(** [func (opt Option) validate() error] *)
Definition validate (opt : t) : result unit :=
  check failIf (Label opt == "") ErrEmptyOptionLabel in
  check failIf (ContainsAny (Label opt) specialWhitespace)
               (ErrInvalidOptionLabel (Label opt)) in
  check failIf ((Short opt == "") && (Long opt == "")) ErrNoShortNoLong in
  check (if Short opt != "" then
           check failIf (negb (HasPrefix (Short opt) "-")) (ErrShortDash (Short opt)) in
           check failIf (negb (len (Short opt) =? 2)%nat) (ErrShortLength (Short opt)) in
           check failIf (ContainsAny (sliceFrom (Short opt) 1) whitespaceCharacters)
                        (ErrShortWhitespace (Short opt)) in
           check failIf (ContainsAny (sliceFrom (Short opt) 1) "[]{}()-=")
                        (ErrShortInvalidChars (Short opt)) in
           Ok tt
         else Ok tt) in
  check (if Long opt != "" then
           check failIf (negb (HasPrefix (Long opt) "--")) (ErrLongDash (Long opt)) in
           check failIf (len (Long opt) =? 2)%nat (ErrLongLength (Long opt)) in
           check failIf (ContainsAny (Long opt) specialWhitespace)
                        (ErrLongWhitespace (Long opt)) in
           check failIf (ContainsAny (Long opt) "[]{}()=")
                        (ErrLongInvalidChars (Long opt)) in
           Ok tt
         else Ok tt) in
  match Variable_ opt with
  | Some va =>
      match Variable_.validate va with
      | Err err => Err (ErrInOption (Label opt) err)
      | Ok _ => Ok tt
      end
  | None => Ok tt
  end.

End Option.

(** [flagMetadata] and [Flags] of flags.go *)
Record flagMetadata : Type := {
  isset : bool;
  hasVar : bool;
  variable : string
}.

Record Flags : Type := { mapping : gmap string flagMetadata }.

(** [Flags{}]: the nil map, in which no key is found *)
Definition noFlags : Flags := {| mapping := ∅ |}.

(** [func (flags Flags) Exists(label string) bool] *)
Definition Exists (flags : Flags) (label : string) : bool :=
  match mapping flags !! label with
  | Some _ => true
  | None => false
  end.

(** [func (flags Flags) IsSet(label string) bool] *)
Definition IsSet (flags : Flags) (label : string) : bool :=
  match mapping flags !! label with
  | Some meta => isset meta
  | None => false
  end.

(** [func (flags Flags) GetVar(label string) (variable string, exists bool)] *)
Definition GetVar (flags : Flags) (label : string) : string * bool :=
  match mapping flags !! label with
  | Some meta =>
      if negb (isset meta) || negb (hasVar meta) then ("", false)
      else (variable meta, true)
  | None => ("", false)
  end.

(** [_, alreadyExists := m[key]] *)
Definition alreadyExists (m : gmap string bool) (key : string) : bool :=
  match m !! key with
  | Some _ => true
  | None => false
  end.

(** [func describeOptions(options []Option) string] of help.go.  The loop
    state is [(reqShort, reqLong, optShort, optLong)]. *)
Definition describeOptionsStep (acc : string * string * string * string)
    (option : Option.t) : string * string * string * string :=
  let '(reqShort, reqLong, optShort, optLong) := acc in
  let required :=
    match Option.Variable_ option with
    | Some va => Variable_.Required va
    | None => false
    end in
  let variableLabel :=
    match Option.Variable_ option with
    | Some va => Variable_.Label va
    | None => ""
    end in
  if required then
    if Option.Short option != "" then
      (reqShort +:+ Option.Short option +:+ " " +:+ variableLabel +:+ " ",
       reqLong, optShort, optLong)
    else
      (reqShort, reqLong +:+ Option.Long option +:+ "=" +:+ variableLabel +:+ " ",
       optShort, optLong)
  else if Option.Short option != "" then
    (reqShort, reqLong,
     (if optShort == "" then Option.Short option
      else optShort +:+ sliceFrom (Option.Short option) 1),
     optLong)
  else (reqShort, reqLong, optShort, optLong +:+ Option.Long option +:+ " ").

Definition longestLongLength (options : list Option.t) : nat :=
  fold_left (fun longest option =>
               if (longest <? len (Option.Long option))%nat
               then len (Option.Long option) else longest)
            options 0.

Definition describeOptions (options : list Option.t) : string :=
  let '(reqShort, reqLong, optShort, optLong) :=
    fold_left describeOptionsStep options ("", "", "", "") in
  let desc := "" in
  let reqShort := TrimRight reqShort " " in
  let desc := if reqShort != "" then desc +:+ reqShort +:+ " " else desc in
  let reqLong := TrimRight reqLong " " in
  let desc := if reqLong != "" then desc +:+ reqLong +:+ " " else desc in
  let optShort := TrimRight optShort " " in
  let desc := if optShort != "" then desc +:+ optShort +:+ " " else desc in
  let optLong := TrimRight optLong " " in
  let desc := if optLong != "" then desc +:+ optLong else desc in
  let desc := TrimRight desc " " in
  let desc := desc +:+ LF in
  let width := longestLongLength options in
  fold_left (fun desc option =>
               desc +:+ TAB +:+ Option.Short option +:+ " "
                    +:+ padRight width (Option.Long option) +:+ " "
                    +:+ Option.HelpMsg option +:+ LF)
            options desc.

Module Argument.

(** The unexported fields [executable] and [help] hold the closures that
    LoadConfig (and withProgram) attach; an output [[]byte] is a
    [string]. *)
Record t : Type := {
  Label : string;
  Options : list Option.t;
  ExecFunc : string;
  executable : Flags -> string;
  HelpMsg : string;
  help : Flags -> string
}.

(** The loop of [Argument.validate] over [arg.Options], with the three
    maps [labels], [shorts] and [longs]. *)
Fixpoint validateOptions (argLabel : string) (options : list Option.t)
    (labels shorts longs : gmap string bool) : result unit :=
  match options with
  | [] => Ok tt
  | opt :: options' =>
      match Option.validate opt with
      | Err err => Err (ErrInArgument argLabel err)
      | Ok _ =>
          check failIf (alreadyExists labels (Option.Label opt))
                       (ErrMultipleOptionLabel argLabel (Option.Label opt)) in
          let labels := <[Option.Label opt := true]> labels in
          try shorts :=
            (if Option.Short opt != "" then
               check failIf (alreadyExists shorts (Option.Short opt))
                            (ErrMultipleOptionShort argLabel (Option.Short opt)) in
               Ok (<[Option.Short opt := true]> shorts)
             else Ok shorts) in
          try longs :=
            (if Option.Long opt != "" then
               check failIf (alreadyExists longs (Option.Long opt))
                            (ErrMultipleOptionLong argLabel (Option.Long opt)) in
               Ok (<[Option.Long opt := true]> longs)
             else Ok longs) in
          validateOptions argLabel options' labels shorts longs
      end
  end.

(** [func (arg Argument) validate() error] *)
Definition validate (arg : t) : result unit :=
  check failIf (ContainsAny (Label arg) specialWhitespace)
               (ErrArgumentLabelWhitespace (Label arg)) in
  check failIf (TrimLeft (Label arg) " " != Label arg)
               (ErrArgumentLabelSpacesStart (Label arg)) in
  check failIf (TrimRight (Label arg) " " != Label arg)
               (ErrArgumentLabelSpacesEnd (Label arg)) in
  validateOptions (Label arg) (Options arg) ∅ ∅ ∅.

(** [func (arg Argument) friendlyName() string] *)
Definition friendlyName (arg : t) : string :=
  if Label arg == "" then "(no arguments)" else Label arg.

(** [func (arg Argument) helpArg() string] *)
Definition helpArg (arg : t) : string :=
  friendlyName arg +:+ " " +:+ describeOptions (Options arg) +:+ LF.

End Argument.

(** [func describeArguments(arguments []Argument) string] of help.go *)
Definition describeArguments (arguments : list Argument.t) : string :=
  let optional := existsb (fun argument => Argument.Label argument == "") arguments in
  let labels :=
    List.map Argument.Label
      (List.filter (fun argument => Argument.Label argument != "") arguments) in
  let desc := Join labels "|" in
  let desc := if optional then "[" +:+ desc +:+ "]" else desc in
  let desc := desc +:+ LF in
  let longestLabelLength :=
    fold_left (fun longest argument =>
                 let label := Argument.friendlyName argument in
                 if (longest <? len label)%nat then len label else longest)
              arguments 0 in
  fold_left (fun desc argument =>
               let label := Argument.friendlyName argument in
               desc +:+ TAB +:+ padRight longestLabelLength label +:+ " "
                    +:+ Argument.HelpMsg argument +:+ LF)
            arguments desc.

Module Command.

Record t : Type := {
  Label : string;
  Arguments : list Argument.t;
  help : Flags -> string
}.

(** The loop of [Command.validate] over [cmd.Arguments], with the map
    [labels]. *)
Fixpoint validateArguments (cmdLabel : string) (arguments : list Argument.t)
    (labels : gmap string bool) : result unit :=
  match arguments with
  | [] => Ok tt
  | arg :: arguments' =>
      match Argument.validate arg with
      | Err err => Err (ErrInCommand cmdLabel err)
      | Ok _ =>
          check failIf (alreadyExists labels (Argument.Label arg))
                       (ErrMultipleArgumentLabel cmdLabel (Argument.Label arg)) in
          validateArguments cmdLabel arguments' (<[Argument.Label arg := true]> labels)
      end
  end.

(** [func (cmd Command) validate() error] *)
Definition validate (cmd : t) : result unit :=
  check failIf (Label cmd == "") ErrEmptyCommandLabel in
  check failIf (ContainsAny (Label cmd) whitespaceCharacters)
               (ErrInvalidCommandLabel (Label cmd)) in
  check failIf (length (Arguments cmd) =? 0)%nat (ErrNoArguments (Label cmd)) in
  validateArguments (Label cmd) (Arguments cmd) ∅.

(** [func (cmd Command) helpCmd() string] *)
Definition helpCmd (cmd : t) : string :=
  let desc :=
    LF +:+ "Usage: " +:+ Label cmd +:+ LF +:+ LF
       +:+ Label cmd +:+ " " +:+ describeArguments (Arguments cmd) +:+ LF in
  fold_left (fun desc arg => desc +:+ Label cmd +:+ " " +:+ Argument.helpArg arg)
            (Arguments cmd) desc.

(** [func (cmd Command) helpArg(arg Argument) string] *)
Definition helpArg (cmd : t) (arg : Argument.t) : string :=
  LF +:+ "Usage: " +:+ Label cmd +:+ " " +:+ Argument.friendlyName arg +:+ LF +:+ LF
     +:+ Label cmd +:+ " " +:+ Argument.helpArg arg.

(** [func (cmd Command) createHelp() func(Flags) []byte] *)
Definition createHelp (cmd : t) : Flags -> string :=
  fun _ => helpCmd cmd.

(** [func (cmd Command) createArgHelp(arg Argument) func(Flags) []byte] *)
Definition createArgHelp (cmd : t) (arg : Argument.t) : Flags -> string :=
  fun _ => helpArg cmd arg.

(** [func (cmd Command) createExecutable(arg Argument) func(Flags) []byte] *)
Definition createExecutable (cmd : t) (arg : Argument.t) : Flags -> string :=
  fun _ => quoted (Argument.ExecFunc arg) +:+ " is not configured" +:+ LF.

End Command.

Module Config.

Record t : Type := {
  Prompt : string;
  Commands : list Command.t;
  InitFunc : string;
  init : Flags -> string;
  ExitFunc : string;
  exit : Flags -> string;
  help : Flags -> string;
  ExitCmd : string;
  HelpCmd : string
}.

(** [func (config Config) createHelp() func(Flags) []byte] *)
Definition createHelp (config : t) : Flags -> string :=
  fun flags =>
    fold_left (fun output command => output +:+ Command.help command flags)
              (Commands config) "".

End Config.

(** The validation loop of LoadConfig over [config.Commands]. *)
Fixpoint validateCommands (exitCmd helpCmd : string) (commands : list Command.t)
    : result unit :=
  match commands with
  | [] => Ok tt
  | command :: commands' =>
      check failIf (Command.Label command == exitCmd) (ErrCommandIsExitCmd exitCmd) in
      check failIf (Command.Label command == helpCmd) (ErrCommandIsHelpCmd helpCmd) in
      check Command.validate command in
      validateCommands exitCmd helpCmd commands'
  end.

(** The assignments
    [config.Commands[i].Arguments[j].executable = command.createExecutable(argument)],
    [config.Commands[i].Arguments[j].help = command.createArgHelp(argument)] and
    [config.Commands[i].help = command.createHelp()].
    [command] and [argument] are the loop's copies; the copy [command]
    shares the backing array of [Arguments] with [config.Commands[i]], so
    the command closure sees the arguments with their closures attached. *)
Definition generateArgument (command : Command.t) (argument : Argument.t) : Argument.t :=
  {| Argument.Label := Argument.Label argument;
     Argument.Options := Argument.Options argument;
     Argument.ExecFunc := Argument.ExecFunc argument;
     Argument.executable := Command.createExecutable command argument;
     Argument.HelpMsg := Argument.HelpMsg argument;
     Argument.help := Command.createArgHelp command argument |}.

Definition generateCommand (command : Command.t) : Command.t :=
  let arguments := List.map (generateArgument command) (Command.Arguments command) in
  {| Command.Label := Command.Label command;
     Command.Arguments := arguments;
     Command.help :=
       Command.createHelp {| Command.Label := Command.Label command;
                             Command.Arguments := arguments;
                             Command.help := Command.help command |} |}.

(** [func LoadConfig(filename string) (config *Config, err error)], from
    the unmarshalled [config] on: reading the file and decoding YAML are
    outside the model. *)
Definition LoadConfig (config : Config.t) : result Config.t :=
  check failIf (Config.ExitCmd config == "") ErrMissingExitCmd in
  check failIf (Config.HelpCmd config == "") ErrMissingHelpCmd in
  check failIf (length (Config.Commands config) =? 0)%nat ErrMissingCommands in
  check validateCommands (Config.ExitCmd config) (Config.HelpCmd config)
                         (Config.Commands config) in
  let commands := List.map generateCommand (Config.Commands config) in
  let config :=
    {| Config.Prompt := Config.Prompt config;
       Config.Commands := commands;
       Config.InitFunc := Config.InitFunc config;
       Config.init := fun _ => "";
       Config.ExitFunc := Config.ExitFunc config;
       Config.exit := fun _ => "";
       Config.help := Config.help config;
       Config.ExitCmd := Config.ExitCmd config;
       Config.HelpCmd := Config.HelpCmd config |} in
  Ok {| Config.Prompt := Config.Prompt config;
        Config.Commands := Config.Commands config;
        Config.InitFunc := Config.InitFunc config;
        Config.init := Config.init config;
        Config.ExitFunc := Config.ExitFunc config;
        Config.exit := Config.exit config;
        Config.help := Config.createHelp config;
        Config.ExitCmd := Config.ExitCmd config;
        Config.HelpCmd := Config.HelpCmd config |}.

(** ** The resolvers of cli.go *)

(** [App]: the writer, the reader and the signal channel belong to the
    read/write loop and are not modelled. *)
Record App : Type := {
  config : Config.t;
  active : bool
}.

(** [func New(config *Config) (app *App)] *)
Definition New (config : Config.t) : App :=
  {| config := config; active := true |}.

(** [func (app *App) prepareExit()] *)
Definition prepareExit (app : App) : App :=
  {| config := config app; active := false |}.

(** The search loop of extractCommand over [app.config.Commands]. *)
Fixpoint findCommand (commands : list Command.t) (commandLabel : string)
    : option Command.t :=
  match commands with
  | [] => None
  | cmd :: commands' =>
      if Command.Label cmd == commandLabel then Some cmd
      else findCommand commands' commandLabel
  end.

(** [func (app *App) extractCommand(input string)
      (command Command, remainingInput string, err error)] *)
Definition extractCommand (app : App) (input : string) : result (Command.t * string) :=
  let '(commandLabel, remainingInput) :=
    match Index input " " with
    | None => (input, "")
    | Some index =>
        (sliceTo input index, TrimLeft (sliceFrom input index) whitespaceCharacters)
    end in
  match findCommand (Config.Commands (config app)) commandLabel with
  | Some cmd => Ok (cmd, remainingInput)
  | None => Err (ErrUnableToFindCommand commandLabel)
  end.

(** The loop of extractArgument over [command.Arguments].  [found] holds
    [(argument, optionsInput)] once [foundArg] is true; the three variables
    are always assigned together. *)
Fixpoint argumentLoop (arguments : list Argument.t) (remainingInput : string)
    (found : option (Argument.t * string)) : option (Argument.t * string) :=
  match arguments with
  | [] => found
  | arg :: arguments' =>
      if Argument.Label arg == "" then
        argumentLoop arguments' remainingInput (Some (arg, remainingInput))
      else
        match Index remainingInput (Argument.Label arg) with
        | None => argumentLoop arguments' remainingInput found
        | Some index =>
            let after := sliceFrom remainingInput (index + len (Argument.Label arg)) in
            if (after != "") && negb (HasPrefix after " ") then
              argumentLoop arguments' remainingInput found
            else
              Some (arg, sliceTo remainingInput index +:+ " " +:+ after)
        end
  end.

(** [func (app *App) extractArgument(remainingInput string, command Command)
      (argument Argument, optionsInput string, err error)] *)
Definition extractArgument (remainingInput : string) (command : Command.t)
    : result (Argument.t * string) :=
  match argumentLoop (Command.Arguments command) remainingInput None with
  | Some found => Ok found
  | None => Err (ErrNoValidArgument (Command.Label command))
  end.

(** The first loop of extractFlags: the default metadata of every option. *)
Definition defaultMetadata (options : list Option.t) : gmap string flagMetadata :=
  fold_left (fun metadata option =>
               <[Option.Label option :=
                   {| isset := false; hasVar := false; variable := "" |}]> metadata)
            options ∅.

(** The state the token loop of extractFlags carries: the map [metadata]
    and the flag [expectingValue]. *)
Record scan : Type := {
  metadata : gmap string flagMetadata;
  expectingValue : bool
}.

Definition setFlag (st : scan) (label : string) (meta : flagMetadata)
    (expecting : bool) : scan :=
  {| metadata := <[label := meta]> (metadata st); expectingValue := expecting |}.

(** The body of the inner loop of extractFlags for the option that
    matches the token [s] (its short or its long equals [s]); [next] is
    [optionsStrings[i+1]] when [i+1 < len(optionsStrings)].  Every path
    through it ends in [break] or [return]. *)
Definition matchedOption (s : string) (next : option string)
    (st : scan) (option : Option.t) : result scan :=
  let shortVersion := Option.Short option == s in
  match Option.Variable_ option with
  | None =>
      Ok (setFlag st (Option.Label option)
            {| isset := true; hasVar := false; variable := "" |}
            (expectingValue st))
  | Some va =>
      let variable := Variable_.Default va in
      if shortVersion then
        try variable :=
          match next with
          | Some value => Ok value
          | None =>
              if Variable_.Required va then
                Err (ErrMissingVariable (Variable_.Label va) (Option.Label option))
              else Ok variable
          end in
        Ok (setFlag st (Option.Label option)
              {| isset := true; hasVar := true; variable := variable |} true)
      else
        try variable :=
          match Index s "=" with
          | Some index => Ok (sliceFrom s index)
          | None =>
              if Variable_.Required va then
                Err (ErrRequiredOptionMissingVariable
                       (Option.Label option) (Variable_.Label va))
              else Ok variable
          end in
        Ok (setFlag st (Option.Label option)
              {| isset := true; hasVar := true; variable := variable |}
              (expectingValue st))
  end.

(** The inner loop of extractFlags over [argument.Options] for the token
    [s]: options whose short and long both differ from [s] are skipped. *)
Fixpoint optionLoop (options : list Option.t) (s : string) (next : option string)
    (st : scan) : result scan :=
  match options with
  | [] => Ok st
  | option :: options' =>
      if (Option.Short option != s) && (Option.Long option != s) then
        optionLoop options' s next st
      else matchedOption s next st option
  end.

(** The token loop of extractFlags over [optionsStrings]: the list holds
    the tokens from index [i] on, so its tail starts at [i+1]. *)
Fixpoint tokenLoop (options : list Option.t) (optionsStrings : list string)
    (st : scan) : result scan :=
  match optionsStrings with
  | [] => Ok st
  | s :: rest =>
      if s == "" then tokenLoop options rest st
      else if HasPrefix s "-" then
        try st := optionLoop options s (head rest) st in
        tokenLoop options rest st
      else if negb (expectingValue st) then Err (ErrInvalidText s)
      else tokenLoop options rest st
  end.

(** [func (app *App) extractFlags(optionsInput string, argument Argument)
      (flags Flags, err error)] *)
Definition extractFlags (optionsInput : string) (argument : Argument.t) : result Flags :=
  let optionsStrings := Split optionsInput " " in
  try st := tokenLoop (Argument.Options argument) optionsStrings
              {| metadata := defaultMetadata (Argument.Options argument);
                 expectingValue := false |} in
  Ok {| mapping := metadata st |}.

(** [func (app *App) getHelpOutput(input string) []byte] *)
Definition getHelpOutput (app : App) (input : string) : string :=
  if input == "" then Config.help (config app) noFlags
  else
    match extractCommand app input with
    | Err err => Error err +:+ LF
    | Ok (command, remainingInput) =>
        if remainingInput == "" then Command.help command noFlags
        else
          match extractArgument remainingInput command with
          | Err err => Error err +:+ LF
          | Ok (argument, _) => Argument.help argument noFlags
          end
    end.

(** [func (app *App) getOutput(input string) []byte]; the second component
    is the App after the call ([prepareExit] clears [active]). *)
Definition getOutput (app : App) (input : string) : string * App :=
  let input := Trim input whitespaceCharacters in
  if input == "" then ("", app)
  else if input == Config.ExitCmd (config app) then
    let app := prepareExit app in
    (Config.exit (config app) noFlags, app)
  else if HasSuffix input (Config.HelpCmd (config app)) then
    let input :=
      TrimRight (sliceTo input (len input - len (Config.HelpCmd (config app))))
                whitespaceCharacters in
    (getHelpOutput app input, app)
  else
    match extractCommand app input with
    | Err err => (Error err +:+ LF, app)
    | Ok (command, remainingInput) =>
        match extractArgument remainingInput command with
        | Err err => (Error err +:+ LF, app)
        | Ok (argument, optionsInput) =>
            match extractFlags optionsInput argument with
            | Err err => (Error err +:+ LF, app)
            | Ok flags => (Argument.executable argument flags, app)
            end
        end
    end.

(** ** The example grammar

    Command [show] with the argument [""] (option [-r]/[--read-only]
    without a variable) and the argument [daily-tasks] (option [-r] with the
    required variable [var4], default [das]); [exitCmd] is [leave] and
    [helpCmd] is [help]. *)

Module Example.

Definition var4 : Variable_.t :=
  {| Variable_.Label := "var4"; Variable_.Required := true; Variable_.Default := "das" |}.

Definition readOnlyPlain : Option.t :=
  {| Option.Label := "readOnly"; Option.Short := "-r"; Option.Long := "--read-only";
     Option.Variable_ := None; Option.HelpMsg := "Short desc" |}.

Definition readOnlyVar4 : Option.t :=
  {| Option.Label := "readOnly"; Option.Short := "-r"; Option.Long := "--read-only";
     Option.Variable_ := Some var4; Option.HelpMsg := "Short desc" |}.

(** A grammar as unmarshalled: the closures are not attached yet. *)
Definition noArguments : Argument.t :=
  {| Argument.Label := ""; Argument.Options := [readOnlyPlain];
     Argument.ExecFunc := "MyFunc"; Argument.executable := fun _ => "";
     Argument.HelpMsg := "Show will show the stuff you want";
     Argument.help := fun _ => "" |}.

Definition dailyTasks : Argument.t :=
  {| Argument.Label := "daily-tasks"; Argument.Options := [readOnlyVar4];
     Argument.ExecFunc := "MyFunc2"; Argument.executable := fun _ => "";
     Argument.HelpMsg := "Show will show the other stuff you want";
     Argument.help := fun _ => "" |}.

Definition show : Command.t :=
  {| Command.Label := "show"; Command.Arguments := [noArguments; dailyTasks];
     Command.help := fun _ => "" |}.

Definition unmarshalled : Config.t :=
  {| Config.Prompt := ">>> "; Config.Commands := [show];
     Config.InitFunc := "Setup"; Config.init := fun _ => "";
     Config.ExitFunc := "Leave"; Config.exit := fun _ => "";
     Config.help := fun _ => "";
     Config.ExitCmd := "leave"; Config.HelpCmd := "help" |}.

(** The configuration LoadConfig returns for it (the grammar is valid,
    see [Example_grammar_loads]). *)
Definition grammar : Config.t :=
  match LoadConfig unmarshalled with
  | Ok config => config
  | Err _ => unmarshalled
  end.

Definition app : App := New grammar.

(** An option whose long form itself contains [=].  The validator
    rejects such a long; extractFlags does not look at it. *)
Definition appendValue : Variable_.t :=
  {| Variable_.Label := "value"; Variable_.Required := false;
     Variable_.Default := "false" |}.

Definition append : Option.t :=
  {| Option.Label := "append"; Option.Short := "-a"; Option.Long := "--append=true";
     Option.Variable_ := Some appendValue; Option.HelpMsg := "" |}.

Definition write : Argument.t :=
  {| Argument.Label := "write"; Argument.Options := [append];
     Argument.ExecFunc := ""; Argument.executable := fun _ => "";
     Argument.HelpMsg := ""; Argument.help := fun _ => "" |}.

(** An argument whose two options carry the same label, short and long,
    and a command that lists the empty-label argument twice. *)
Definition clashing : Argument.t :=
  {| Argument.Label := "weekly-tasks"; Argument.Options := [readOnlyPlain; readOnlyVar4];
     Argument.ExecFunc := ""; Argument.executable := fun _ => "";
     Argument.HelpMsg := ""; Argument.help := fun _ => "" |}.

Definition twice : Command.t :=
  {| Command.Label := "show";
     Command.Arguments := [noArguments; dailyTasks; noArguments];
     Command.help := fun _ => "" |}.

(** An argument whose two options have a long form only: the field
    [Short] of both is the empty string. *)
Definition verbose : Option.t :=
  {| Option.Label := "verbose"; Option.Short := ""; Option.Long := "--verbose";
     Option.Variable_ := None; Option.HelpMsg := "" |}.

Definition quiet : Option.t :=
  {| Option.Label := "quiet"; Option.Short := ""; Option.Long := "--quiet";
     Option.Variable_ := None; Option.HelpMsg := "" |}.

Definition longOnly : Argument.t :=
  {| Argument.Label := "report"; Argument.Options := [verbose; quiet];
     Argument.ExecFunc := ""; Argument.executable := fun _ => "";
     Argument.HelpMsg := ""; Argument.help := fun _ => "" |}.

End Example.

(** ** Notions used to state the properties *)

(** The first option in declared order whose short or long equals the
    token [s]. *)
Fixpoint findOption (options : list Option.t) (s : string) : option Option.t :=
  match options with
  | [] => None
  | option :: options' =>
      if (Option.Short option != s) && (Option.Long option != s) then
        findOption options' s
      else Some option
  end.

(** The label of [arg] is accepted in [remainingInput] at byte [index]:
    it is not empty, [index] is its first occurrence, and what follows the
    occurrence is empty or starts with a space. *)
Definition accepted (remainingInput : string) (arg : Argument.t) (index : nat) : Prop :=
  Argument.Label arg <> "" /\
  Index remainingInput (Argument.Label arg) = Some index /\
  let after := sliceFrom remainingInput (index + len (Argument.Label arg)) in
  after = "" \/ HasPrefix after " " = true.

(** The options text after the accepted label is replaced by one space. *)
Definition excised (remainingInput : string) (arg : Argument.t) (index : nat) : string :=
  sliceTo remainingInput index +:+ " "
    +:+ sliceFrom remainingInput (index + len (Argument.Label arg)).

(** Two options clash when they carry the same label, the same short or
    the same long.  An option without a short (or long) form has the empty
    string in that field and shares it with no other option. *)
Definition clash (o1 o2 : Option.t) : Prop :=
  Option.Label o1 = Option.Label o2 \/
  (Option.Short o1 <> "" /\ Option.Short o1 = Option.Short o2) \/
  (Option.Long o1 <> "" /\ Option.Long o1 = Option.Long o2).

(** The option [o] collides with an entry of the maps the loop of
    Argument.validate has filled so far. *)
Definition seen (labels shorts longs : gmap string bool) (o : Option.t) : Prop :=
  alreadyExists labels (Option.Label o) = true \/
  (Option.Short o <> "" /\ alreadyExists shorts (Option.Short o) = true) \/
  (Option.Long o <> "" /\ alreadyExists longs (Option.Long o) = true).

(** [arg] with its option list replaced, and [cmd] with its argument list
    replaced. *)
Definition withOptions (arg : Argument.t) (options : list Option.t) : Argument.t :=
  {| Argument.Label := Argument.Label arg;
     Argument.Options := options;
     Argument.ExecFunc := Argument.ExecFunc arg;
     Argument.executable := Argument.executable arg;
     Argument.HelpMsg := Argument.HelpMsg arg;
     Argument.help := Argument.help arg |}.

Definition withArguments (cmd : Command.t) (arguments : list Argument.t) : Command.t :=
  {| Command.Label := Command.Label cmd;
     Command.Arguments := arguments;
     Command.help := Command.help cmd |}.

(** The number of arguments with an empty label. *)
Definition emptyLabels (arguments : list Argument.t) : nat :=
  length (List.filter (fun arg => Argument.Label arg == "") arguments).


(** The metadata every option starts with. *)
Definition unset : flagMetadata :=
  {| isset := false; hasVar := false; variable := "" |}.

(** A byte of the cutset [" \n\r\t"]. *)
Definition isWhitespace (a : ascii) : bool := inCutset a whitespaceCharacters.

(** Every byte of [s] is a whitespace character. *)
Fixpoint allWhitespace (s : string) : bool :=
  match s with
  | EmptyString => true
  | String a s' => isWhitespace a && allWhitespace s'
  end.

(** ** Binding a program (config.go)

    [getExecutable] looks a method up by name through reflection and
    recovers from the panic of a missing or wrongly typed method.  The
    program is modelled by what that lookup can observe: the name of its
    type and, for each method name, the method when it exists with the type
    [func(Flags) []byte]. *)
Record Program : Type := {
  typeName : string;
  method : string -> option (Flags -> string)
}.

(** [func getExecutable(program interface{}, funcName string)
      (action func(Flags) []byte, err error)]; the error is its message. *)
Definition getExecutable (program : Program) (funcName : string)
    : (Flags -> string) + string :=
  match method program funcName with
  | Some action => inl action
  | None =>
      inr ("unable to find method " +:+ quoted funcName +:+ " for type "
             +:+ quoted (typeName program))
  end.

(** The inner loop of withProgram over [command.Arguments]. *)
Fixpoint withProgramArguments (program : Program) (arguments : list Argument.t)
    : list Argument.t + string :=
  match arguments with
  | [] => inl []
  | argument :: arguments' =>
      let bound :=
        if Argument.ExecFunc argument != "" then
          match getExecutable program (Argument.ExecFunc argument) with
          | inl action =>
              inl {| Argument.Label := Argument.Label argument;
                     Argument.Options := Argument.Options argument;
                     Argument.ExecFunc := Argument.ExecFunc argument;
                     Argument.executable := action;
                     Argument.HelpMsg := Argument.HelpMsg argument;
                     Argument.help := Argument.help argument |}
          | inr err => inr err
          end
        else inl argument in
      match bound with
      | inr err => inr err
      | inl argument =>
          match withProgramArguments program arguments' with
          | inr err => inr err
          | inl arguments' => inl (argument :: arguments')
          end
      end
  end.

(** The outer loop of withProgram over [config.Commands]. *)
Fixpoint withProgramCommands (program : Program) (commands : list Command.t)
    : list Command.t + string :=
  match commands with
  | [] => inl []
  | command :: commands' =>
      match withProgramArguments program (Command.Arguments command) with
      | inr err => inr err
      | inl arguments =>
          match withProgramCommands program commands' with
          | inr err => inr err
          | inl commands' =>
              inl ({| Command.Label := Command.Label command;
                      Command.Arguments := arguments;
                      Command.help := Command.help command |} :: commands')
          end
      end
  end.

(** [func (config *Config) withProgram(program interface{}) (err error)]:
    the configuration after the call when [err] is [nil], the message of
    [err] otherwise (the partially bound configuration of the failing call
    is not modelled). *)
Definition withProgram (config : Config.t) (program : Program) : Config.t + string :=
  match getExecutable program (Config.InitFunc config) with
  | inr err => inr err
  | inl init =>
      match getExecutable program (Config.ExitFunc config) with
      | inr err => inr err
      | inl exit =>
          match withProgramCommands program (Config.Commands config) with
          | inr err => inr err
          | inl commands =>
              inl {| Config.Prompt := Config.Prompt config;
                     Config.Commands := commands;
                     Config.InitFunc := Config.InitFunc config;
                     Config.init := init;
                     Config.ExitFunc := Config.ExitFunc config;
                     Config.exit := exit;
                     Config.help := Config.help config;
                     Config.ExitCmd := Config.ExitCmd config;
                     Config.HelpCmd := Config.HelpCmd config |}
          end
      end
  end.

(** [func (app *App) Using(program interface{})], which returns the App
    and the error of withProgram *)
Definition Using (app : App) (program : Program) : App + string :=
  match withProgram (config app) program with
  | inr err => inr err
  | inl config => inl {| config := config; active := active app |}
  end.

(** [argument'] is [argument] after withProgram: the same data and help
    closure, and the program's method as executable when [ExecFunc] is not
    empty. *)
Definition boundArgument (program : Program) (argument argument' : Argument.t) : Prop :=
  Argument.Label argument' = Argument.Label argument /\
  Argument.Options argument' = Argument.Options argument /\
  Argument.ExecFunc argument' = Argument.ExecFunc argument /\
  Argument.HelpMsg argument' = Argument.HelpMsg argument /\
  Argument.help argument' = Argument.help argument /\
  (Argument.ExecFunc argument = "" ->
   Argument.executable argument' = Argument.executable argument) /\
  (Argument.ExecFunc argument <> "" ->
   method program (Argument.ExecFunc argument) = Some (Argument.executable argument')).

Definition boundCommand (program : Program) (command command' : Command.t) : Prop :=
  Command.Label command' = Command.Label command /\
  Command.help command' = Command.help command /\
  Forall2 (boundArgument program) (Command.Arguments command) (Command.Arguments command').

(** A program with the four methods of the README. *)
Module ExampleProgram.

Definition program : Program :=
  {| typeName := "*main.Program";
     method := fun name =>
       if name == "Setup" then Some (fun _ => "Starting" +:+ LF)
       else if name == "Leave" then Some (fun _ => "Leaving" +:+ LF)
       else if name == "MyFunc" then
         Some (fun flags => if IsSet flags "readOnly" then "MyFunc -r" else "MyFunc")
       else if name == "MyFunc2" then
         Some (fun flags => "MyFunc2 " +:+ fst (GetVar flags "readOnly"))
       else None |}.

Definition app : App :=
  match Using Example.app program with
  | inl app => app
  | inr _ => Example.app
  end.

End ExampleProgram.

(** The iterations of the token loop of extractFlags for the tokens
    [before], when [following] are the tokens behind them in
    [optionsStrings]: the loop body is that of [tokenLoop], and the next
    token of the last element of [before] is the first of [following]
    ([tokenLoop_split] relates the two loops). *)
Fixpoint tokenPrefix (options : list Option.t) (before following : list string)
    (st : scan) : result scan :=
  match before with
  | [] => Ok st
  | s :: rest =>
      if s == "" then tokenPrefix options rest following st
      else if HasPrefix s "-" then
        try st := optionLoop options s (head (rest ++ following)) st in
        tokenPrefix options rest following st
      else if negb (expectingValue st) then Err (ErrInvalidText s)
      else tokenPrefix options rest following st
  end.

(** The state in which the token loop of extractFlags starts. *)
Definition initialScan (argument : Argument.t) : scan :=
  {| metadata := defaultMetadata (Argument.Options argument); expectingValue := false |}.

(** An argument whose option [-r]/[--read-only] has a Variable that is
    not required (the first argument of the README grammar, with the
    default spelled out). *)
Module ExampleOptional.

Definition var4 : Variable_.t :=
  {| Variable_.Label := "var4"; Variable_.Required := false; Variable_.Default := "das" |}.

Definition readOnly : Option.t :=
  {| Option.Label := "readOnly"; Option.Short := "-r"; Option.Long := "--read-only";
     Option.Variable_ := Some var4; Option.HelpMsg := "Short desc" |}.

Definition weeklyTasks : Argument.t :=
  {| Argument.Label := "weekly-tasks"; Argument.Options := [readOnly];
     Argument.ExecFunc := "MyFunc"; Argument.executable := fun _ => "";
     Argument.HelpMsg := ""; Argument.help := fun _ => "" |}.

End ExampleOptional.

(** * Properties *)

(** ** Facts about the string helpers *)

Section StringFacts.

Lemma eqb_true (s : string) : (s == s) = true.
Proof. apply String.eqb_refl. Qed.

Lemma neqb_true (s t : string) : (s != t) = true <-> s <> t.
Proof. rewrite negb_true_iff. apply String.eqb_neq. Qed.

Lemma neqb_false (s t : string) : (s != t) = false <-> s = t.
Proof. rewrite negb_false_iff. apply String.eqb_eq. Qed.

Lemma append_nil (b : string) : "" +:+ b = b.
Proof. reflexivity. Qed.

Lemma append_cons (x : ascii) (a b : string) : String x a +:+ b = String x (a +:+ b).
Proof. reflexivity. Qed.

Lemma append_assoc (a b c : string) : (a +:+ b) +:+ c = a +:+ (b +:+ c).
Proof.
  induction a as [|x a IH]; [reflexivity|].
  rewrite !append_cons. by f_equal.
Qed.

Lemma len_append (a b : string) : len (a +:+ b) = len a + len b.
Proof.
  induction a as [|x a IH]; [reflexivity|].
  rewrite append_cons. unfold len in *. simpl. by f_equal.
Qed.

Lemma sliceTo_append (a b : string) : sliceTo (a +:+ b) (len a) = a.
Proof.
  induction a as [|x a IH]; [reflexivity|].
  rewrite append_cons. simpl. by f_equal.
Qed.

Lemma sliceFrom_append (a b : string) : sliceFrom (a +:+ b) (len a) = b.
Proof.
  induction a as [|x a IH]; [reflexivity|].
  rewrite append_cons. simpl. done.
Qed.

Lemma HasPrefix_append (a b : string) : HasPrefix (a +:+ b) a = true.
Proof.
  induction a as [|x a IH]; [reflexivity|].
  rewrite append_cons. simpl. by rewrite Ascii.eqb_refl.
Qed.

(** At the index [Index] returns, the substring occurs. *)
Lemma Index_occurs (s substr : string) (index : nat) :
  Index s substr = Some index -> HasPrefix (sliceFrom s index) substr = true.
Proof.
  revert index. induction s as [|x s IH]; intros index; simpl.
  - destruct substr; simpl; [|done]. by intros [= <-].
  - destruct (HasPrefix (String x s) substr) eqn:Hp.
    + by intros [= <-].
    + destruct (Index s substr) as [i|] eqn:Hi; simpl; [|done].
      intros [= <-]. simpl. by apply IH.
Qed.

Lemma HasPrefix_nonempty (s prefix : string) :
  prefix <> "" -> HasPrefix s prefix = true -> s <> "".
Proof. destruct prefix, s; simpl; congruence. Qed.

End StringFacts.

(** The proofs below unfold the loops, not the string helpers. *)
Arguments HasPrefix : simpl never.
Arguments Index : simpl never.
Arguments sliceFrom : simpl never.
Arguments sliceTo : simpl never.

(** ** Facts about the loops of extractFlags *)

Section FlagLoops.

Variable options : list Option.t.

Lemma optionLoop_findOption (s : string) (next : option string) (st : scan) :
  optionLoop options s next st =
  match findOption options s with
  | Some option => matchedOption s next st option
  | None => Ok st
  end.
Proof.
  induction options as [|o os IH]; simpl; [done|].
  by destruct ((Option.Short o != s) && (Option.Long o != s)).
Qed.

Lemma findOption_None (s : string) :
  (forall option, In option options ->
                  Option.Short option <> s /\ Option.Long option <> s) ->
  findOption options s = None.
Proof.
  induction options as [|o os IH]; simpl; [done|]. intros H.
  destruct (H o (or_introl eq_refl)) as [Hs Hl].
  apply neqb_true in Hs, Hl. rewrite Hs, Hl. simpl.
  apply IH. intros o' Ho'. apply H. by right.
Qed.

Lemma findOption_Some (s : string) (option : Option.t) :
  findOption options s = Some option ->
  In option options /\ (Option.Short option = s \/ Option.Long option = s).
Proof.
  induction options as [|o os IH]; simpl; [done|].
  destruct (Option.Short o != s) eqn:Hs; simpl.
  - destruct (Option.Long o != s) eqn:Hl.
    + intros H. destruct (IH H). auto.
    + intros [= <-]. apply neqb_false in Hl. auto.
  - intros [= <-]. apply neqb_false in Hs. auto.
Qed.

(** A matched option rewrites the entry of its own label and nothing
    else. *)
Lemma matchedOption_metadata (s : string) (next : option string) (st st' : scan)
    (option : Option.t) :
  matchedOption s next st option = Ok st' ->
  exists meta, metadata st' = <[Option.Label option := meta]> (metadata st).
Proof.
  unfold matchedOption, bind.
  destruct (Option.Variable_ option) as [va|]; [|intros [= <-]; eauto].
  destruct (Option.Short option == s).
  - destruct next; [intros [= <-]; eauto|].
    destruct (Variable_.Required va); [done | intros [= <-]; eauto].
  - destruct (Index s "="); [intros [= <-]; eauto|].
    destruct (Variable_.Required va); [done | intros [= <-]; eauto].
Qed.

(** The loop over the tokens [before ++ l] succeeds only if the loop
    over [l] succeeds from the state reached after [before]. *)
Lemma tokenLoop_app (before l : list string) (st st' : scan) :
  tokenLoop options (before ++ l) st = Ok st' ->
  exists st1, tokenLoop options l st1 = Ok st'.
Proof.
  revert st. induction before as [|t before IH]; intros st; simpl; [eauto|].
  destruct (t == ""); [apply IH|].
  destruct (HasPrefix t "-").
  - unfold bind. destruct (optionLoop _ _ _ _); [apply IH | done].
  - destruct (negb (expectingValue st)); [done | apply IH].
Qed.

(** Tokens that resolve to options with other labels leave the entry of
    [label] alone. *)
Lemma tokenLoop_lookup_other (label : string) (tokens : list string) (st st' : scan) :
  (forall t o, In t tokens -> findOption options t = Some o -> Option.Label o <> label) ->
  tokenLoop options tokens st = Ok st' ->
  metadata st' !! label = metadata st !! label.
Proof.
  revert st. induction tokens as [|t tokens IH]; intros st Hother; simpl.
  - by intros [= <-].
  - assert (Htail : forall t' o, In t' tokens -> findOption options t' = Some o ->
                                 Option.Label o <> label)
      by (intros t' o Hin; apply Hother; by right).
    destruct (t == ""); [by apply IH|].
    destruct (HasPrefix t "-").
    + unfold bind. rewrite optionLoop_findOption.
      destruct (findOption options t) as [o|] eqn:Hfind; [|by apply IH].
      destruct (matchedOption t (head tokens) st o) as [st1|] eqn:Hm; [|done].
      intros Hloop. rewrite (IH st1 Htail Hloop).
      destruct (matchedOption_metadata _ _ _ _ _ Hm) as [meta ->].
      apply lookup_insert_ne. apply (Hother t o); [by left | done].
    + destruct (negb (expectingValue st)); [done | by apply IH].
Qed.

(** Once [expectingValue] is set it stays set. *)
Lemma matchedOption_expecting (s : string) (next : option string) (st st' : scan)
    (option : Option.t) :
  matchedOption s next st option = Ok st' ->
  expectingValue st = true -> expectingValue st' = true.
Proof.
  unfold matchedOption, bind.
  destruct (Option.Variable_ option) as [va|]; [|by intros [= <-]].
  destruct (Option.Short option == s).
  - destruct next; [by intros [= <-]|].
    destruct (Variable_.Required va); [done | by intros [= <-]].
  - destruct (Index s "="); [by intros [= <-]|].
    destruct (Variable_.Required va); [done | by intros [= <-]].
Qed.

(** With [expectingValue] set, the loop never reports an invalid bare
    token, whatever tokens follow: the flag is never cleared. *)
Lemma tokenLoop_expecting_no_invalid_text (tokens : list string) (st : scan) (t : string) :
  expectingValue st = true ->
  tokenLoop options tokens st <> Err (ErrInvalidText t).
Proof.
  revert st. induction tokens as [|s tokens IH]; intros st Hev; simpl; [done|].
  destruct (s == ""); [by apply IH|].
  destruct (HasPrefix s "-").
  - unfold bind. rewrite optionLoop_findOption.
    destruct (findOption options s) as [o|]; [|by apply IH].
    destruct (matchedOption s (head tokens) st o) as [st1|e] eqn:Hm.
    + apply IH. by eapply matchedOption_expecting.
    + revert Hm. unfold matchedOption, bind.
      destruct (Option.Variable_ o) as [va|]; [|done].
      destruct (Option.Short o == s).
      * destruct (head tokens); [done|].
        destruct (Variable_.Required va); [by intros [= <-] | done].
      * destruct (Index s "="); [done|].
        destruct (Variable_.Required va); [by intros [= <-] | done].
  - rewrite Hev. simpl. by apply IH.
Qed.

(** The key set of [metadata] is invariant under the loops. *)
Lemma tokenLoop_dom (tokens : list string) (st st' : scan) :
  (forall option, In option options -> Option.Label option ∈ dom (metadata st)) ->
  tokenLoop options tokens st = Ok st' ->
  dom (metadata st') = dom (metadata st).
Proof.
  revert st. induction tokens as [|t tokens IH]; intros st Hdom; simpl.
  - by intros [= <-].
  - destruct (t == ""); [by apply IH|].
    destruct (HasPrefix t "-").
    + unfold bind. rewrite optionLoop_findOption.
      destruct (findOption options t) as [o|] eqn:Hfind; [|by apply IH].
      destruct (matchedOption t (head tokens) st o) as [st1|] eqn:Hm; [|done].
      destruct (matchedOption_metadata _ _ _ _ _ Hm) as [meta Hmeta].
      apply findOption_Some in Hfind as [Hin _].
      assert (Hsame : dom (metadata st1) = dom (metadata st)).
      { rewrite Hmeta, dom_insert_L. apply subseteq_union_1_L.
        apply singleton_subseteq_l. by apply Hdom. }
      intros Hloop. rewrite <- Hsame. apply IH; [|done].
      intros o' Ho'. rewrite Hsame. by apply Hdom.
    + destruct (negb (expectingValue st)); [done | by apply IH].
Qed.

End FlagLoops.

Lemma defaultMetadata_dom (options : list Option.t) :
  dom (defaultMetadata options) = list_to_set (List.map Option.Label options).
Proof.
  unfold defaultMetadata.
  assert (H : forall m : gmap string flagMetadata,
             dom (fold_left
                    (fun metadata option =>
                       <[Option.Label option :=
                           {| isset := false; hasVar := false; variable := "" |}]> metadata)
                    options m)
             = list_to_set (List.map Option.Label options) ∪ dom m).
  { induction options as [|o os IH]; intros m; simpl.
    - by rewrite (left_id_L ∅ (∪)).
    - rewrite IH, dom_insert_L.
      by rewrite (assoc_L (∪)), (comm_L (∪) _ {[Option.Label o]}). }
  by rewrite H, dom_empty_L, (right_id_L ∅ (∪)).
Qed.

Lemma tokenLoop_skip_empty (options : list Option.t) (before l : list string) (st : scan) :
  (forall t, In t before -> t = "") ->
  tokenLoop options (before ++ l) st = tokenLoop options l st.
Proof.
  induction before as [|t before IH]; intros Hempty; [done|].
  simpl. rewrite (Hempty t (or_introl eq_refl)). simpl.
  apply IH. intros t' Ht'. apply Hempty. by right.
Qed.

Lemma extractFlags_Ok (optionsInput : string) (arg : Argument.t) (flags : Flags) :
  extractFlags optionsInput arg = Ok flags ->
  exists st,
    tokenLoop (Argument.Options arg) (Split optionsInput " ")
      {| metadata := defaultMetadata (Argument.Options arg); expectingValue := false |}
    = Ok st /\ flags = {| mapping := metadata st |}.
Proof.
  unfold extractFlags, bind.
  destruct (tokenLoop _ _ _) as [st|]; [|done].
  intros [= <-]. eauto.
Qed.

(** ** Flag resolution *)

(** C2, evaluated on the code.  The specification has [expectingValue]
    exempt only the one token consumed as a value, a later bare token
    being an "invalid text" error.  The code sets the flag and never
    clears it: for the argument [daily-tasks] the options text
    ["  -r extra junk"] resolves without error, [readOnly] carries the
    value [extra], the bare token [junk] is accepted, and the whole line
    [show daily-tasks -r extra junk] reaches the executable of the
    argument. *)
Theorem C2_later_bare_token_is_accepted :
  (exists flags,
      extractFlags "  -r extra junk" Example.dailyTasks = Ok flags /\
      mapping flags !! "readOnly"
      = Some {| isset := true; hasVar := true; variable := "extra" |}) /\
  fst (getOutput Example.app "show daily-tasks -r extra junk")
  = quoted "MyFunc2" +:+ " is not configured" +:+ LF.
Proof.
  split.
  - eexists. split; [vm_compute; reflexivity|]. vm_compute. reflexivity.
  - vm_compute. reflexivity.
Qed.

(** The branch of the long form that takes a value is entered only by a
    token that equals the long form and contains [=], hence only when the
    long form itself contains [=] (which Option.validate rejects).  When
    it is entered, the recorded value is [s[index:]], separator included. *)
Lemma long_form_holding_equals_keeps_separator :
  forall (options : list Option.t) (s : string) (option : Option.t)
         (va : Variable_.t) (index : nat),
    HasPrefix s "-" = true ->
    findOption options s = Some option ->
    Option.Long option = s ->
    Option.Short option <> s ->
    Option.Variable_ option = Some va ->
    Index s "=" = Some index ->
    let recorded := {| isset := true; hasVar := true; variable := sliceFrom s index |} in
    HasPrefix (sliceFrom s index) "=" = true /\
    (forall rest st,
        tokenLoop options (s :: rest) st
        = tokenLoop options rest
            (setFlag st (Option.Label option) recorded (expectingValue st))) /\
    (forall arg optionsInput before after flags,
        Argument.Options arg = options ->
        Split optionsInput " " = (before ++ s :: after)%list ->
        (forall t o, In t after -> findOption options t = Some o ->
                     Option.Label o <> Option.Label option) ->
        extractFlags optionsInput arg = Ok flags ->
        mapping flags !! Option.Label option = Some recorded).
Proof.
  intros options s option va index Hdash Hfind Hlong Hshort Hva Hindex recorded.
  assert (Hstep : forall rest st,
             tokenLoop options (s :: rest) st
             = tokenLoop options rest
                 (setFlag st (Option.Label option) recorded (expectingValue st))).
  { intros rest st. simpl.
    assert (Hne : (s == "") = false).
    { apply String.eqb_neq. by apply (HasPrefix_nonempty s "-"). }
    rewrite Hne, Hdash. unfold bind. rewrite optionLoop_findOption, Hfind.
    unfold matchedOption, bind. rewrite Hva.
    apply String.eqb_neq in Hshort. rewrite Hshort, Hindex. done. }
  split; [by apply Index_occurs|]. split; [done|].
  intros arg optionsInput before after flags <- Hsplit Hafter Hflags.
  apply extractFlags_Ok in Hflags as (st & Hloop & ->). simpl.
  rewrite Hsplit in Hloop. apply tokenLoop_app in Hloop as [st1 Hloop].
  rewrite Hstep in Hloop.
  rewrite (tokenLoop_lookup_other _ _ _ _ _ Hafter Hloop). simpl.
  apply lookup_insert_eq.
Qed.

Lemma long_form_holding_equals_instance :
  mapping
    (match extractFlags " --append=true" Example.write with
     | Ok flags => flags
     | Err _ => noFlags
     end) !! "append"
  = Some {| isset := true; hasVar := true; variable := "=true" |}.
Proof.
  refine (proj2 (proj2 (long_form_holding_equals_keeps_separator
            [Example.append] "--append=true" Example.append Example.appendValue 8
            _ _ _ _ _ _))
          Example.write " --append=true" [""] [] _ _ _ _ _);
    try (vm_compute; reflexivity).
  - vm_compute. discriminate.
  - intros t o [].
Qed.

(** C3, evaluated on the code.  The argument [daily-tasks] is valid and
    its option [readOnly] has the long form [--read-only] and a Variable.
    The token [--read-only=yes] is the long-form syntax of the source
    comment ([--<chars>=<variable>]) and contains [=]; it should be
    recorded as set, with a value.  The code compares the whole token with
    the long form, finds no option and records nothing: the options text
    resolves without error, [readOnly] keeps its initial metadata, and the
    line reaches the executable of the argument. *)
Theorem C3_long_form_with_value_records_nothing :
  Argument.validate Example.dailyTasks = Ok tt /\
  findOption (Argument.Options Example.dailyTasks) "--read-only=yes" = None /\
  (exists flags,
      extractFlags "  --read-only=yes" Example.dailyTasks = Ok flags /\
      mapping flags !! "readOnly" = Some unset /\
      IsSet flags "readOnly" = false /\
      GetVar flags "readOnly" = ("", false)) /\
  fst (getOutput Example.app "show daily-tasks --read-only=yes")
  = quoted "MyFunc2" +:+ " is not configured" +:+ LF.
Proof.
  split; [vm_compute; reflexivity|]. split; [vm_compute; reflexivity|]. split.
  - eexists. split; [vm_compute; reflexivity|]. repeat split; vm_compute; reflexivity.
  - vm_compute. reflexivity.
Qed.

Lemma tokenLoop_split (options : list Option.t) (before following : list string)
    (st : scan) :
  tokenLoop options (before ++ following) st
  = match tokenPrefix options before following st with
    | Ok st1 => tokenLoop options following st1
    | Err e => Err e
    end.
Proof.
  revert st. induction before as [|t before IH]; intros st; [done|].
  simpl. destruct (t == ""); [apply IH|].
  destruct (HasPrefix t "-").
  - unfold bind. destruct (optionLoop _ _ _ _); [apply IH | done].
  - destruct (negb (expectingValue st)); [done | apply IH].
Qed.

Lemma tokenPrefix_skip_empty (options : list Option.t) (before following : list string)
    (st : scan) :
  (forall t, In t before -> t = "") ->
  tokenPrefix options before following st = Ok st.
Proof.
  induction before as [|t before IH]; intros Hempty; [done|].
  simpl. rewrite (Hempty t (or_introl eq_refl)). simpl.
  apply IH. intros t' Ht'. apply Hempty. by right.
Qed.

(** C5.  The token [s] is the last element of the split options text (no
    next token), starts with a dash and equals the short form of the first
    option matching it, and the option has a Variable.
    If the Variable is required, the loop fails at [s] with the
    missing-variable error: extractFlags returns that error, unless a token
    before [s] has already failed, in which case it returns the error of
    that token; with only empty tokens before [s] the error is the
    missing-variable error.
    If the Variable is not required, the loop marks the option
    [{isset: true, hasVar: true}] with the Variable's default: extractFlags
    succeeds with that entry whenever the tokens before [s] are scanned
    without error, in particular when they are all empty.
    For the example grammar the line [show daily-tasks -r] yields the
    missing-variable message. *)
Theorem C5_short_form_without_next_token :
  (forall (arg : Argument.t) (optionsInput : string) (before : list string)
          (s : string) (option : Option.t) (va : Variable_.t),
      Split optionsInput " " = (before ++ [s])%list ->
      HasPrefix s "-" = true ->
      findOption (Argument.Options arg) s = Some option ->
      Option.Short option = s ->
      Option.Variable_ option = Some va ->
      (Variable_.Required va = true ->
       let missing := ErrMissingVariable (Variable_.Label va) (Option.Label option) in
       (forall st, tokenLoop (Argument.Options arg) [s] st = Err missing) /\
       (exists e, extractFlags optionsInput arg = Err e) /\
       ((forall t, In t before -> t = "") -> extractFlags optionsInput arg = Err missing) /\
       extractFlags optionsInput arg
       = match tokenPrefix (Argument.Options arg) before [s] (initialScan arg) with
         | Ok _ => Err missing
         | Err e => Err e
         end) /\
      (Variable_.Required va = false ->
       let marked :=
         {| isset := true; hasVar := true; variable := Variable_.Default va |} in
       (forall st, tokenLoop (Argument.Options arg) [s] st
                   = Ok (setFlag st (Option.Label option) marked true)) /\
       (forall flags, extractFlags optionsInput arg = Ok flags ->
                      mapping flags !! Option.Label option = Some marked) /\
       extractFlags optionsInput arg
       = match tokenPrefix (Argument.Options arg) before [s] (initialScan arg) with
         | Ok st => Ok {| mapping := <[Option.Label option := marked]> (metadata st) |}
         | Err e => Err e
         end /\
       ((forall t, In t before -> t = "") ->
        extractFlags optionsInput arg
        = Ok {| mapping := <[Option.Label option := marked]>
                             (defaultMetadata (Argument.Options arg)) |}))) /\
  fst (getOutput Example.app "show daily-tasks -r")
  = Error (ErrMissingVariable "var4" "readOnly") +:+ LF.
Proof.
  split; [|vm_compute; reflexivity].
  intros arg optionsInput before s option va Hsplit Hdash Hfind Hshort Hva.
  assert (Hne : (s == "") = false).
  { apply String.eqb_neq. by apply (HasPrefix_nonempty s "-"). }
  assert (Hstep : forall st,
             tokenLoop (Argument.Options arg) [s] st
             = match matchedOption s None st option with
               | Ok st' => Ok st'
               | Err e => Err e
               end).
  { intros st. simpl. rewrite Hne, Hdash. unfold bind.
    by rewrite optionLoop_findOption, Hfind. }
  assert (Hflags : extractFlags optionsInput arg
                   = match tokenPrefix (Argument.Options arg) before [s] (initialScan arg) with
                     | Ok st1 =>
                         match tokenLoop (Argument.Options arg) [s] st1 with
                         | Ok st => Ok {| mapping := metadata st |}
                         | Err e => Err e
                         end
                     | Err e => Err e
                     end).
  { unfold extractFlags, bind. rewrite Hsplit, tokenLoop_split. fold (initialScan arg).
    by destruct (tokenPrefix _ _ _ _). }
  apply String.eqb_eq in Hshort.
  split.
  - intros Hreq missing.
    assert (Hlast : forall st, tokenLoop (Argument.Options arg) [s] st = Err missing).
    { intros st. rewrite Hstep. unfold matchedOption, bind.
      by rewrite Hva, Hshort, Hreq. }
    assert (Hexact : extractFlags optionsInput arg
                     = match tokenPrefix (Argument.Options arg) before [s] (initialScan arg)
                       with
                       | Ok _ => Err missing
                       | Err e => Err e
                       end).
    { rewrite Hflags. destruct (tokenPrefix _ _ _ _); [by rewrite Hlast | done]. }
    split; [done|]. split; [|split; [|done]].
    + rewrite Hexact. destruct (tokenPrefix _ _ _ _); eauto.
    + intros Hempty. by rewrite Hexact, tokenPrefix_skip_empty.
  - intros Hreq marked.
    assert (Hlast : forall st, tokenLoop (Argument.Options arg) [s] st
                               = Ok (setFlag st (Option.Label option) marked true)).
    { intros st. rewrite Hstep. unfold matchedOption, bind.
      by rewrite Hva, Hshort, Hreq. }
    assert (Hexact : extractFlags optionsInput arg
                     = match tokenPrefix (Argument.Options arg) before [s] (initialScan arg)
                       with
                       | Ok st =>
                           Ok {| mapping := <[Option.Label option := marked]> (metadata st) |}
                       | Err e => Err e
                       end).
    { rewrite Hflags. destruct (tokenPrefix _ _ _ _); [by rewrite Hlast | done]. }
    split; [done|]. split; [|split; [done|]].
    + intros flags. rewrite Hexact. destruct (tokenPrefix _ _ _ _); [|done].
      intros [= <-]. simpl. apply lookup_insert_eq.
    + intros Hempty. by rewrite Hexact, tokenPrefix_skip_empty.
Qed.

Lemma C5_witness :
  extractFlags "  -r" Example.dailyTasks = Err (ErrMissingVariable "var4" "readOnly") /\
  extractFlags "  -r" ExampleOptional.weeklyTasks
  = Ok {| mapping :=
            <["readOnly" := {| isset := true; hasVar := true; variable := "das" |}]>
              (defaultMetadata [ExampleOptional.readOnly]) |}.
Proof.
  split.
  - refine (proj1 (proj2 (proj2 (proj1 (proj1 C5_short_form_without_next_token
              Example.dailyTasks "  -r" [""; ""] "-r" Example.readOnlyVar4 Example.var4
              _ _ _ _ _) _))) _);
      try (vm_compute; reflexivity).
    intros t [<-|[<-|[]]]; reflexivity.
  - refine (proj2 (proj2 (proj2 (proj2 (proj1 C5_short_form_without_next_token
              ExampleOptional.weeklyTasks "  -r" [""; ""] "-r"
              ExampleOptional.readOnly ExampleOptional.var4
              _ _ _ _ _) _))) _);
      try (vm_compute; reflexivity).
    intros t [<-|[<-|[]]]; reflexivity.
Defined.

(** C6.  A token that starts with a dash and equals neither the short nor
    the long form of any configured option is skipped: the loop goes on
    with the state (the metadata of every option, and the carry flag) it
    had before the token. *)
Theorem C6_unmatched_dash_token_is_ignored :
  forall (options : list Option.t) (s : string) (rest : list string) (st : scan),
    HasPrefix s "-" = true ->
    (forall option, In option options ->
                    Option.Short option <> s /\ Option.Long option <> s) ->
    optionLoop options s (head rest) st = Ok st /\
    tokenLoop options (s :: rest) st = tokenLoop options rest st.
Proof.
  intros options s rest st Hdash Hnone.
  assert (Hloop : optionLoop options s (head rest) st = Ok st).
  { by rewrite optionLoop_findOption, findOption_None. }
  split; [done|]. simpl.
  assert (Hne : (s == "") = false).
  { apply String.eqb_neq. by apply (HasPrefix_nonempty s "-"). }
  by rewrite Hne, Hdash, Hloop.
Qed.

Lemma C6_witness :
  optionLoop [Example.readOnlyVar4] "--verbose" None
    {| metadata := ∅; expectingValue := false |}
  = Ok {| metadata := ∅; expectingValue := false |} /\
  tokenLoop [Example.readOnlyVar4] ["--verbose"]
    {| metadata := ∅; expectingValue := false |}
  = Ok {| metadata := ∅; expectingValue := false |}.
Proof.
  apply (C6_unmatched_dash_token_is_ignored [Example.readOnlyVar4] "--verbose" []
           {| metadata := ∅; expectingValue := false |}).
  - reflexivity.
  - intros option [<-|[]]. split; vm_compute; discriminate.
Defined.

(** C9.  Whenever extractFlags succeeds, the keys of the returned mapping
    are exactly the labels of the argument's options: [Exists] answers
    true for a label if and only if some option of the argument carries
    it. *)
Theorem C9_flags_keys_are_option_labels :
  forall (optionsInput : string) (arg : Argument.t) (flags : Flags),
    extractFlags optionsInput arg = Ok flags ->
    forall label : string,
      Exists flags label = true <->
      In label (List.map Option.Label (Argument.Options arg)).
Proof.
  intros optionsInput arg flags Hflags label.
  apply extractFlags_Ok in Hflags as (st & Hloop & ->).
  apply tokenLoop_dom in Hloop; simpl in *.
  - unfold Exists. simpl.
    rewrite <- list_elem_of_In, <- (elem_of_list_to_set (C := gset string)).
    rewrite <- defaultMetadata_dom, <- Hloop, elem_of_dom.
    destruct (metadata st !! label) as [meta|]; split; try done; by intros [? ?].
  - intros option Hin. rewrite defaultMetadata_dom, elem_of_list_to_set.
    apply list_elem_of_In, in_map_iff. eauto.
Qed.

Lemma C9_witness :
  Exists (match extractFlags "  -r extra" Example.dailyTasks with
          | Ok flags => flags
          | Err _ => noFlags
          end) "readOnly" = true <->
  In "readOnly" ["readOnly"].
Proof.
  apply (C9_flags_keys_are_option_labels "  -r extra" Example.dailyTasks).
  vm_compute. reflexivity.
Defined.

(** ** Argument resolution *)

Section ArgumentLoop.

Variable remainingInput : string.

Lemma argumentLoop_empty_label (arg : Argument.t) (rest : list Argument.t)
    (found : option (Argument.t * string)) :
  Argument.Label arg = "" ->
  argumentLoop (arg :: rest) remainingInput found
  = argumentLoop rest remainingInput (Some (arg, remainingInput)).
Proof. intros Hlabel. simpl. by rewrite Hlabel. Qed.

Lemma argumentLoop_accepted (arg : Argument.t) (rest : list Argument.t)
    (found : option (Argument.t * string)) (index : nat) :
  accepted remainingInput arg index ->
  argumentLoop (arg :: rest) remainingInput found
  = Some (arg, excised remainingInput arg index).
Proof.
  intros (Hlabel & Hindex & Hafter). unfold excised. simpl in *.
  apply String.eqb_neq in Hlabel. rewrite Hlabel, Hindex.
  destruct Hafter as [Hafter | Hafter]; rewrite Hafter; [done|].
  by rewrite andb_false_r.
Qed.

Lemma argumentLoop_rejected (arg : Argument.t) (rest : list Argument.t)
    (found : option (Argument.t * string)) :
  Argument.Label arg <> "" ->
  (forall index, ~ accepted remainingInput arg index) ->
  argumentLoop (arg :: rest) remainingInput found
  = argumentLoop rest remainingInput found.
Proof.
  intros Hlabel Hrej. simpl.
  destruct (String.eqb_spec (Argument.Label arg) "") as [|_]; [done|].
  destruct (Index remainingInput (Argument.Label arg)) as [index|] eqn:Hindex; [|done].
  destruct (sliceFrom remainingInput (index + len (Argument.Label arg)) != "") eqn:Hne;
    simpl.
  - destruct (HasPrefix _ " ") eqn:Hsp; [|done].
    destruct (Hrej index). repeat split; auto.
  - apply neqb_false in Hne. destruct (Hrej index). repeat split; auto.
Qed.

(** Arguments none of which is accepted leave the tentative match to the
    last of them with an empty label. *)
Lemma argumentLoop_none_accepted (arguments : list Argument.t)
    (found : option (Argument.t * string)) :
  (forall a i, In a arguments -> ~ accepted remainingInput a i) ->
  (forall a, In a arguments -> Argument.Label a <> "") ->
  argumentLoop arguments remainingInput found = found.
Proof.
  revert found. induction arguments as [|arg rest IH]; intros found Hrej Hne; [done|].
  rewrite argumentLoop_rejected.
  - apply IH; intros; [apply Hrej | apply Hne]; by right.
  - apply Hne. by left.
  - intros i. apply Hrej. by left.
Qed.

(** Arguments before the first accepted one do not matter. *)
Lemma argumentLoop_first_accepted (before : list Argument.t) (arg : Argument.t)
    (after : list Argument.t) (found : option (Argument.t * string)) (index : nat) :
  (forall a i, In a before -> ~ accepted remainingInput a i) ->
  accepted remainingInput arg index ->
  argumentLoop (before ++ arg :: after) remainingInput found
  = Some (arg, excised remainingInput arg index).
Proof.
  revert found. induction before as [|a before IH]; intros found Hrej Hacc.
  - by apply argumentLoop_accepted.
  - assert (Htail : forall a' i, In a' before -> ~ accepted remainingInput a' i)
      by (intros a' i Hin; apply Hrej; by right).
    change ((a :: before) ++ arg :: after)%list with (a :: (before ++ arg :: after))%list.
    destruct (String.eqb_spec (Argument.Label a) "") as [Hempty|Hne].
    + rewrite argumentLoop_empty_label; auto.
    + rewrite argumentLoop_rejected; auto.
      intros i. apply Hrej. by left.
Qed.

(** With no accepted label, the last empty-label argument is returned
    with the whole remainder. *)
Lemma argumentLoop_tentative (before : list Argument.t) (arg : Argument.t)
    (after : list Argument.t) (found : option (Argument.t * string)) :
  (forall a i, In a before -> ~ accepted remainingInput a i) ->
  Argument.Label arg = "" ->
  (forall a, In a after -> Argument.Label a <> "") ->
  (forall a i, In a after -> ~ accepted remainingInput a i) ->
  argumentLoop (before ++ arg :: after) remainingInput found
  = Some (arg, remainingInput).
Proof.
  revert found. induction before as [|a before IH]; intros found Hrej Hempty Hne Hafter.
  - simpl. rewrite Hempty. simpl. by apply argumentLoop_none_accepted.
  - assert (Htail : forall a' i, In a' before -> ~ accepted remainingInput a' i)
      by (intros a' i Hin; apply Hrej; by right).
    change ((a :: before) ++ arg :: after)%list with (a :: (before ++ arg :: after))%list.
    destruct (String.eqb_spec (Argument.Label a) "") as [Ha|Ha].
    + rewrite argumentLoop_empty_label; auto.
    + rewrite argumentLoop_rejected; auto.
      intros i. apply Hrej. by left.
Qed.

(** What the loop returns: an argument of the list with a non-empty
    label that is accepted, or the tentative match. *)
Lemma argumentLoop_result (arguments : list Argument.t)
    (found : option (Argument.t * string)) (arg : Argument.t) (optionsInput : string) :
  argumentLoop arguments remainingInput found = Some (arg, optionsInput) ->
  (exists index, Argument.Label arg <> "" /\ accepted remainingInput arg index /\
                 optionsInput = excised remainingInput arg index) \/
  (Argument.Label arg = "" /\ optionsInput = remainingInput) \/
  found = Some (arg, optionsInput).
Proof.
  revert found. induction arguments as [|a rest IH]; intros found; simpl; [auto|].
  destruct (String.eqb_spec (Argument.Label a) "") as [Hempty|Hne].
  - intros H. destruct (IH _ H) as [?|[?|[= <- <-]]]; auto.
  - destruct (Index remainingInput (Argument.Label a)) as [index|] eqn:Hindex.
    + destruct (sliceFrom remainingInput (index + len (Argument.Label a)) != "")
        eqn:Hafter; simpl.
      * destruct (HasPrefix _ " ") eqn:Hsp; simpl.
        -- intros [= <- <-]. left. exists index. repeat split; auto.
        -- intros H. destruct (IH _ H) as [?|[?|?]]; auto.
      * apply neqb_false in Hafter.
        intros [= <- <-]. left. exists index. repeat split; auto.
    + intros H. destruct (IH _ H) as [?|[?|?]]; auto.
Qed.

End ArgumentLoop.

(** C4.  For every command and remainder:
    (1) the first argument in configured order whose non-empty label is
    accepted (first occurrence found by [Index], followed by nothing or by
    a space) is returned at once, with the label replaced by one space,
    whatever arguments precede it, an empty-label one included;
    (2) if no label is accepted, the last empty-label argument is returned
    with the whole remainder as options text;
    (3) an argument with a non-empty label is returned only if its label is
    accepted, and the options text is the remainder with the label
    excised. *)
Theorem C4_argument_resolution :
  forall (command : Command.t) (remainingInput : string),
    (forall before arg after index,
        Command.Arguments command = (before ++ arg :: after)%list ->
        (forall a i, In a before -> ~ accepted remainingInput a i) ->
        accepted remainingInput arg index ->
        extractArgument remainingInput command
        = Ok (arg, sliceTo remainingInput index +:+ " "
                     +:+ sliceFrom remainingInput (index + len (Argument.Label arg)))) /\
    (forall before arg after,
        Command.Arguments command = (before ++ arg :: after)%list ->
        Argument.Label arg = "" ->
        (forall a, In a after -> Argument.Label a <> "") ->
        (forall a i, In a (Command.Arguments command) -> ~ accepted remainingInput a i) ->
        extractArgument remainingInput command = Ok (arg, remainingInput)) /\
    (forall arg optionsInput,
        extractArgument remainingInput command = Ok (arg, optionsInput) ->
        Argument.Label arg <> "" ->
        exists index,
          accepted remainingInput arg index /\
          optionsInput = sliceTo remainingInput index +:+ " "
                           +:+ sliceFrom remainingInput (index + len (Argument.Label arg))).
Proof.
  intros command remainingInput. unfold extractArgument. repeat split.
  - intros before arg after index -> Hrej Hacc.
    by rewrite (argumentLoop_first_accepted _ _ _ _ _ index).
  - intros before arg after -> Hempty Hafter Hrej.
    rewrite argumentLoop_tentative; auto.
    + intros a i Hin. apply Hrej. apply in_or_app. by left.
    + intros a i Hin. apply Hrej. apply in_or_app. right. by right.
  - intros arg optionsInput.
    destruct (argumentLoop _ _ _) as [[arg' text]|] eqn:Hloop; [|done].
    intros [= -> ->] Hne.
    destruct (argumentLoop_result _ _ _ _ _ Hloop) as [(i & _ & ? & ?)|[[? _]|?]];
      [eauto | done | done].
Qed.

Lemma C4_witness :
  extractArgument "daily-tasks -r extra" Example.show
  = Ok (Example.dailyTasks, "  -r extra").
Proof.
  refine (proj1 (C4_argument_resolution Example.show "daily-tasks -r extra")
            [Example.noArguments] Example.dailyTasks [] 0 _ _ _).
  - reflexivity.
  - intros a i [<-|[]] [Hne _]. by apply Hne.
  - split; [vm_compute; discriminate|].
    split; [vm_compute; reflexivity|].
    right. vm_compute. reflexivity.
Defined.

(** C10.  Nothing is required of the text before the occurrence.  For a
    remainder [prefix ++ label ++ rest] in which the first occurrence of
    the non-empty label starts right after [prefix], and [rest] is empty
    or starts with a space, the argument is resolved (unless an earlier
    argument of the command is accepted first) and the options text is
    [prefix ++ " " ++ rest]; [prefix] is arbitrary, in particular it may
    end in a non-space character, which makes the label the tail of a
    longer token. *)
Theorem C10_no_leading_boundary_check :
  forall (command : Command.t) (before : list Argument.t) (arg : Argument.t)
         (after : list Argument.t) (prefix rest : string),
    Command.Arguments command = (before ++ arg :: after)%list ->
    Argument.Label arg <> "" ->
    (forall a i, In a before ->
                 ~ accepted (prefix +:+ Argument.Label arg +:+ rest) a i) ->
    Index (prefix +:+ Argument.Label arg +:+ rest) (Argument.Label arg)
    = Some (len prefix) ->
    rest = "" \/ HasPrefix rest " " = true ->
    extractArgument (prefix +:+ Argument.Label arg +:+ rest) command
    = Ok (arg, prefix +:+ " " +:+ rest).
Proof.
  intros command before arg after prefix rest Hargs Hlabel Hrej Hindex Hrest.
  assert (Hafter : sliceFrom (prefix +:+ Argument.Label arg +:+ rest)
                     (len prefix + len (Argument.Label arg)) = rest).
  { by rewrite <- append_assoc, <- len_append, sliceFrom_append. }
  assert (Hacc : accepted (prefix +:+ Argument.Label arg +:+ rest) arg (len prefix)).
  { repeat split; auto. simpl. by rewrite Hafter. }
  unfold extractArgument. rewrite Hargs.
  rewrite (argumentLoop_first_accepted _ _ _ _ _ (len prefix)); auto.
  unfold excised. by rewrite Hafter, sliceTo_append.
Qed.

Lemma C10_witness :
  extractArgument "xdaily-tasks -r extra" Example.show
  = Ok (Example.dailyTasks, "x  -r extra").
Proof.
  refine (C10_no_leading_boundary_check Example.show
            [Example.noArguments] Example.dailyTasks [] "x" " -r extra" _ _ _ _ _).
  - reflexivity.
  - vm_compute. discriminate.
  - intros a i [<-|[]] [Hne _]. by apply Hne.
  - vm_compute. reflexivity.
  - right. vm_compute. reflexivity.
Defined.

(** ** Validation *)

Lemma alreadyExists_insert (m : gmap string bool) (k k' : string) :
  alreadyExists (<[k := true]> m) k' = true <-> k = k' \/ alreadyExists m k' = true.
Proof.
  unfold alreadyExists. destruct (decide (k = k')) as [->|Hne].
  - rewrite lookup_insert_eq. tauto.
  - rewrite lookup_insert_ne by done. tauto.
Qed.

Lemma alreadyExists_empty (k : string) : alreadyExists ∅ k = false.
Proof. unfold alreadyExists. by rewrite lookup_empty. Qed.

(** Two positions of a list are carried to two positions of any
    permutation of it. *)
Lemma Permutation_two_positions {A : Type} (l l' : list A) (i j : nat) (x y : A) :
  Permutation l l' -> i <> j -> l !! i = Some x -> l !! j = Some y ->
  exists i' j', i' <> j' /\ l' !! i' = Some x /\ l' !! j' = Some y.
Proof.
  intros Hperm Hij Hx Hy.
  apply Permutation_inj in Hperm as (_ & f & Hinj & Hf).
  exists (f i), (f j). repeat split.
  - intros Heq. by apply Hij, Hinj.
  - by rewrite <- Hf.
  - by rewrite <- Hf.
Qed.

Section ValidateOptions.

Variable argLabel : string.

(** One iteration of the loop: it returns an error or goes on with the
    three maps extended by the option. *)
Lemma validateOptions_cons (opt : Option.t) (rest : list Option.t)
    (labels shorts longs : gmap string bool) :
  (exists e, Argument.validateOptions argLabel (opt :: rest) labels shorts longs = Err e) \/
  Argument.validateOptions argLabel (opt :: rest) labels shorts longs
  = Argument.validateOptions argLabel rest
      (<[Option.Label opt := true]> labels)
      (if Option.Short opt != "" then <[Option.Short opt := true]> shorts else shorts)
      (if Option.Long opt != "" then <[Option.Long opt := true]> longs else longs).
Proof.
  simpl. destruct (Option.validate opt); [|eauto].
  unfold bind, failIf.
  destruct (alreadyExists labels (Option.Label opt)); [eauto|].
  destruct (Option.Short opt != "").
  - destruct (alreadyExists shorts (Option.Short opt)); [eauto|].
    destruct (Option.Long opt != ""); [|auto].
    destruct (alreadyExists longs (Option.Long opt)); eauto.
  - destruct (Option.Long opt != ""); [|auto].
    destruct (alreadyExists longs (Option.Long opt)); eauto.
Qed.

Lemma seen_cons (opt o : Option.t) (labels shorts longs : gmap string bool) :
  seen labels shorts longs o ->
  seen (<[Option.Label opt := true]> labels)
       (if Option.Short opt != "" then <[Option.Short opt := true]> shorts else shorts)
       (if Option.Long opt != "" then <[Option.Long opt := true]> longs else longs) o.
Proof.
  intros [H|[[Hne H]|[Hne H]]].
  - left. apply alreadyExists_insert. auto.
  - right. left. split; [done|].
    destruct (Option.Short opt != ""); [|done]. apply alreadyExists_insert. auto.
  - right. right. split; [done|].
    destruct (Option.Long opt != ""); [|done]. apply alreadyExists_insert. auto.
Qed.

Lemma seen_after_clash (o1 o2 : Option.t) (labels shorts longs : gmap string bool) :
  clash o1 o2 ->
  seen (<[Option.Label o1 := true]> labels)
       (if Option.Short o1 != "" then <[Option.Short o1 := true]> shorts else shorts)
       (if Option.Long o1 != "" then <[Option.Long o1 := true]> longs else longs) o2.
Proof.
  intros [H|[[Hne H]|[Hne H]]].
  - left. apply alreadyExists_insert. auto.
  - right. left. split; [congruence|].
    apply neqb_true in Hne. rewrite Hne. apply alreadyExists_insert. auto.
  - right. right. split; [congruence|].
    apply neqb_true in Hne. rewrite Hne. apply alreadyExists_insert. auto.
Qed.

(** An option colliding with the maps stops the loop with an error. *)
Lemma validateOptions_seen (options : list Option.t) (j : nat) (o : Option.t)
    (labels shorts longs : gmap string bool) :
  options !! j = Some o ->
  seen labels shorts longs o ->
  exists e, Argument.validateOptions argLabel options labels shorts longs = Err e.
Proof.
  revert j labels shorts longs.
  induction options as [|opt rest IH]; intros j labels shorts longs Hj Hseen; [done|].
  destruct j as [|j]; simpl in Hj.
  - injection Hj as ->. simpl.
    destruct (Option.validate o); [|eauto].
    unfold bind, failIf.
    destruct (alreadyExists labels (Option.Label o)) eqn:Hl; [eauto|].
    destruct Hseen as [H|[[Hne H]|[Hne H]]]; [congruence| |].
    + apply neqb_true in Hne. rewrite Hne, H. eauto.
    + destruct (Option.Short o != "").
      * destruct (alreadyExists shorts (Option.Short o)); [eauto|].
        apply neqb_true in Hne. rewrite Hne, H. eauto.
      * apply neqb_true in Hne. rewrite Hne, H. eauto.
  - destruct (validateOptions_cons opt rest labels shorts longs) as [?| ->]; [done|].
    apply (IH j); [done|]. by apply seen_cons.
Qed.

(** Two clashing options at positions [i < j] stop the loop. *)
Lemma validateOptions_clash (options : list Option.t) (i j : nat) (o1 o2 : Option.t)
    (labels shorts longs : gmap string bool) :
  i < j -> options !! i = Some o1 -> options !! j = Some o2 -> clash o1 o2 ->
  exists e, Argument.validateOptions argLabel options labels shorts longs = Err e.
Proof.
  revert i j labels shorts longs.
  induction options as [|opt rest IH]; intros i j labels shorts longs Hij Hi Hj Hclash;
    [done|].
  destruct j as [|j]; [lia|]. simpl in Hj.
  destruct (validateOptions_cons opt rest labels shorts longs) as [?| ->]; [done|].
  destruct i as [|i]; simpl in Hi.
  - injection Hi as ->. apply (validateOptions_seen rest j o2); [done|].
    by apply seen_after_clash.
  - apply (IH i j); [lia|done..].
Qed.

End ValidateOptions.

Lemma clash_sym (o1 o2 : Option.t) : clash o1 o2 -> clash o2 o1.
Proof.
  intros [H|[[Hne H]|[Hne H]]]; [left | right; left | right; right];
    try split; congruence.
Qed.

Lemma Argument_validate_clash (arg : Argument.t) (i j : nat) (o1 o2 : Option.t) :
  i <> j ->
  Argument.Options arg !! i = Some o1 -> Argument.Options arg !! j = Some o2 ->
  clash o1 o2 ->
  exists e, Argument.validate arg = Err e.
Proof.
  intros Hij Hi Hj Hclash. unfold Argument.validate, bind, failIf.
  destruct (ContainsAny _ _); [eauto|].
  destruct (TrimLeft _ _ != _); [eauto|].
  destruct (TrimRight _ _ != _); [eauto|].
  destruct (Nat.lt_total i j) as [Hlt|[->|Hlt]]; [|done|].
  - by apply (validateOptions_clash _ _ i j o1 o2).
  - apply (validateOptions_clash _ _ j i o2 o1); [done..|]. by apply clash_sym.
Qed.

Section ValidateArguments.

Variable cmdLabel : string.

Lemma validateArguments_cons (arg : Argument.t) (rest : list Argument.t)
    (labels : gmap string bool) :
  (exists e, Command.validateArguments cmdLabel (arg :: rest) labels = Err e) \/
  (alreadyExists labels (Argument.Label arg) = false /\
   Command.validateArguments cmdLabel (arg :: rest) labels
   = Command.validateArguments cmdLabel rest (<[Argument.Label arg := true]> labels)).
Proof.
  simpl. destruct (Argument.validate arg); [|eauto].
  unfold bind, failIf.
  destruct (alreadyExists labels (Argument.Label arg)); eauto.
Qed.

Lemma validateArguments_seen (arguments : list Argument.t) (j : nat) (a : Argument.t)
    (labels : gmap string bool) :
  arguments !! j = Some a ->
  alreadyExists labels (Argument.Label a) = true ->
  exists e, Command.validateArguments cmdLabel arguments labels = Err e.
Proof.
  revert j labels.
  induction arguments as [|arg rest IH]; intros j labels Hj Hseen; [done|].
  destruct (validateArguments_cons arg rest labels) as [?|[Hnew ->]]; [done|].
  destruct j as [|j]; simpl in Hj.
  - injection Hj as ->. congruence.
  - apply (IH j); [done|]. apply alreadyExists_insert. auto.
Qed.

Lemma validateArguments_duplicate (arguments : list Argument.t) (i j : nat)
    (a1 a2 : Argument.t) (labels : gmap string bool) :
  i < j -> arguments !! i = Some a1 -> arguments !! j = Some a2 ->
  Argument.Label a1 = Argument.Label a2 ->
  exists e, Command.validateArguments cmdLabel arguments labels = Err e.
Proof.
  revert i j labels.
  induction arguments as [|arg rest IH]; intros i j labels Hij Hi Hj Hsame; [done|].
  destruct j as [|j]; [lia|]. simpl in Hj.
  destruct (validateArguments_cons arg rest labels) as [?|[_ ->]]; [done|].
  destruct i as [|i]; simpl in Hi.
  - injection Hi as ->. apply (validateArguments_seen rest j a2); [done|].
    apply alreadyExists_insert. auto.
  - apply (IH i j); [lia|done..].
Qed.

(** Two empty labels among the arguments, or one when the empty label is
    already in the map, stop the loop. *)
Lemma validateArguments_empty_labels (arguments : list Argument.t)
    (labels : gmap string bool) :
  2 <= emptyLabels arguments \/
  (1 <= emptyLabels arguments /\ alreadyExists labels "" = true) ->
  exists e, Command.validateArguments cmdLabel arguments labels = Err e.
Proof.
  revert labels. unfold emptyLabels.
  induction arguments as [|arg rest IH]; intros labels Hcount.
  - simpl in Hcount. lia.
  - destruct (validateArguments_cons arg rest labels) as [?|[Hnew ->]]; [done|].
    apply IH. simpl in Hcount.
    destruct (String.eqb_spec (Argument.Label arg) "") as [Hempty|Hne]; simpl in Hcount.
    + right. split.
      * destruct Hcount as [?|[_ Hin]]; [lia|]. rewrite Hempty in Hnew. congruence.
      * apply alreadyExists_insert. auto.
    + destruct Hcount as [?|[? Hin]]; [by left|].
      right. split; [done|]. apply alreadyExists_insert. auto.
Qed.

(** The loop reports a repeated empty label only if it meets a second
    empty label. *)
Lemma validateArguments_repeated_empty (arguments : list Argument.t)
    (labels : gmap string bool) :
  Command.validateArguments cmdLabel arguments labels
  = Err (ErrMultipleArgumentLabel cmdLabel "") ->
  2 <= emptyLabels arguments \/
  (1 <= emptyLabels arguments /\ alreadyExists labels "" = true).
Proof.
  revert labels. unfold emptyLabels.
  induction arguments as [|arg rest IH]; intros labels; simpl; [done|].
  destruct (Argument.validate arg); [|done].
  unfold bind, failIf.
  destruct (alreadyExists labels (Argument.Label arg)) eqn:Hseen.
  - intros [= Hlabel]. rewrite Hlabel in *. simpl. right. split; [lia|done].
  - intros Hrest. apply IH in Hrest.
    destruct (String.eqb_spec (Argument.Label arg) "") as [Hempty|Hne]; simpl.
    + left. destruct Hrest as [?|[? _]]; lia.
    + destruct Hrest as [?|[? Hin]]; [by left|].
      apply alreadyExists_insert in Hin as [?|?]; [done|]. right. by split.
Qed.

End ValidateArguments.

(** C7.  An argument whose option list holds, at two different positions,
    options with the same label, the same short or the same long (an
    option without a short or long form shares none) fails validation, and
    so does the argument with its options in any other order; a command
    whose argument list holds two arguments with the same label fails
    validation in every order of its arguments. *)
Theorem C7_duplicates_rejected_in_every_order :
  (forall (arg : Argument.t) (i j : nat) (o1 o2 : Option.t) (options' : list Option.t),
      i <> j ->
      Argument.Options arg !! i = Some o1 ->
      Argument.Options arg !! j = Some o2 ->
      clash o1 o2 ->
      Permutation (Argument.Options arg) options' ->
      exists e, Argument.validate (withOptions arg options') = Err e) /\
  (forall (cmd : Command.t) (i j : nat) (a1 a2 : Argument.t)
          (arguments' : list Argument.t),
      i <> j ->
      Command.Arguments cmd !! i = Some a1 ->
      Command.Arguments cmd !! j = Some a2 ->
      Argument.Label a1 = Argument.Label a2 ->
      Permutation (Command.Arguments cmd) arguments' ->
      exists e, Command.validate (withArguments cmd arguments') = Err e).
Proof.
  split.
  - intros arg i j o1 o2 options' Hij Hi Hj Hclash Hperm.
    destruct (Permutation_two_positions _ _ _ _ _ _ Hperm Hij Hi Hj)
      as (i' & j' & Hij' & Hi' & Hj').
    by apply (Argument_validate_clash (withOptions arg options') i' j' o1 o2).
  - intros cmd i j a1 a2 arguments' Hij Hi Hj Hsame Hperm.
    destruct (Permutation_two_positions _ _ _ _ _ _ Hperm Hij Hi Hj)
      as (i' & j' & Hij' & Hi' & Hj').
    unfold Command.validate, bind, failIf. simpl.
    destruct (Command.Label cmd == ""); [eauto|].
    destruct (ContainsAny _ _); [eauto|].
    destruct (length arguments' =? 0)%nat; [eauto|].
    destruct (Nat.lt_total i' j') as [Hlt|[->|Hlt]]; [|done|].
    + by apply (validateArguments_duplicate _ _ i' j' a1 a2).
    + by apply (validateArguments_duplicate _ _ j' i' a2 a1).
Qed.

Lemma C7_witness :
  (exists e,
      Argument.validate
        (withOptions Example.clashing [Example.readOnlyVar4; Example.readOnlyPlain])
      = Err e) /\
  (exists e,
      Command.validate
        (withArguments Example.twice
           [Example.noArguments; Example.noArguments; Example.dailyTasks])
      = Err e).
Proof.
  split.
  - apply (proj1 C7_duplicates_rejected_in_every_order Example.clashing 0 1
             Example.readOnlyPlain Example.readOnlyVar4).
    + lia.
    + reflexivity.
    + reflexivity.
    + left. reflexivity.
    + apply perm_swap.
  - apply (proj2 C7_duplicates_rejected_in_every_order Example.twice 0 2
             Example.noArguments Example.noArguments).
    + lia.
    + reflexivity.
    + reflexivity.
    + reflexivity.
    + apply perm_skip, perm_swap.
Defined.

(** C8.  A command with two or more empty-label arguments fails
    validation.  A command with at most one empty-label argument is never
    rejected for a repeated empty argument label: whatever validation
    returns, it is not that error. *)
Theorem C8_at_most_one_empty_label :
  forall cmd : Command.t,
    (2 <= emptyLabels (Command.Arguments cmd) ->
     exists e, Command.validate cmd = Err e) /\
    (emptyLabels (Command.Arguments cmd) <= 1 ->
     Command.validate cmd <> Err (ErrMultipleArgumentLabel (Command.Label cmd) "")).
Proof.
  intros cmd. unfold Command.validate, bind, failIf. split.
  - intros Hcount.
    destruct (Command.Label cmd == ""); [eauto|].
    destruct (ContainsAny _ _); [eauto|].
    destruct (length (Command.Arguments cmd) =? 0)%nat; [eauto|].
    apply validateArguments_empty_labels. by left.
  - intros Hcount.
    destruct (Command.Label cmd == ""); [done|].
    destruct (ContainsAny _ _); [done|].
    destruct (length (Command.Arguments cmd) =? 0)%nat; [done|].
    intros Hrep. apply validateArguments_repeated_empty in Hrep.
    rewrite alreadyExists_empty in Hrep. destruct Hrep as [?|[_ ?]]; [lia|done].
Qed.

Lemma C8_witness :
  (exists e, Command.validate Example.twice = Err e) /\
  Command.validate Example.show <> Err (ErrMultipleArgumentLabel "show" "").
Proof.
  split.
  - apply (proj1 (C8_at_most_one_empty_label Example.twice)).
    vm_compute. lia.
  - apply (proj2 (C8_at_most_one_empty_label Example.show)).
    vm_compute. lia.
Defined.

(** The example command, with its single empty-label argument, is valid,
    and the example grammar loads. *)
Lemma Example_show_validates : Command.validate Example.show = Ok tt.
Proof. vm_compute. reflexivity. Qed.

Lemma Example_grammar_loads : LoadConfig Example.unmarshalled = Ok Example.grammar.
Proof. reflexivity. Qed.

(** The command [twice] is rejected for the repeated empty label. *)
Lemma Example_twice_rejected :
  Command.validate Example.twice = Err (ErrMultipleArgumentLabel "show" "").
Proof. vm_compute. reflexivity. Qed.

(** ** Help requests *)

(** The help text of a command reads only labels, options and help
    messages, which attaching the closures leaves as they are. *)
Section GeneratedHelp.

Variable command : Command.t.

Lemma fold_left_generated {B : Type} (f : B -> Argument.t -> B)
    (arguments : list Argument.t) (acc : B) :
  (forall b a, f b (generateArgument command a) = f b a) ->
  fold_left f (List.map (generateArgument command) arguments) acc
  = fold_left f arguments acc.
Proof.
  intros Hf. revert acc. induction arguments as [|a rest IH]; intros acc; [done|].
  simpl. by rewrite Hf, IH.
Qed.

Lemma describeArguments_generated (arguments : list Argument.t) :
  describeArguments (List.map (generateArgument command) arguments)
  = describeArguments arguments.
Proof.
  unfold describeArguments.
  assert (Hexists : existsb (fun argument => Argument.Label argument == "")
                      (List.map (generateArgument command) arguments)
                    = existsb (fun argument => Argument.Label argument == "") arguments).
  { induction arguments as [|a rest IH]; [done|].
    cbn [List.map existsb Argument.Label generateArgument]. by rewrite IH. }
  assert (Hlabels :
            List.map Argument.Label
              (List.filter (fun argument => Argument.Label argument != "")
                 (List.map (generateArgument command) arguments))
            = List.map Argument.Label
                (List.filter (fun argument => Argument.Label argument != "") arguments)).
  { clear Hexists. induction arguments as [|a rest IH]; [done|].
    cbn [List.map List.filter Argument.Label generateArgument].
    destruct (Argument.Label a != "");
      cbn [List.map Argument.Label generateArgument]; by rewrite IH. }
  rewrite Hexists, Hlabels.
  rewrite (fold_left_generated
             (fun longest argument =>
                let label := Argument.friendlyName argument in
                if (longest <? len label)%nat then len label else longest)) by done.
  by rewrite fold_left_generated.
Qed.

Lemma helpCmd_generated :
  Command.help (generateCommand command) noFlags = Command.helpCmd command.
Proof.
  unfold generateCommand, Command.createHelp, Command.helpCmd. simpl.
  rewrite describeArguments_generated.
  by rewrite fold_left_generated.
Qed.

End GeneratedHelp.

Lemma findCommand_generated (commands : list Command.t) (label : string) :
  findCommand (List.map generateCommand commands) label
  = option_map generateCommand (findCommand commands label).
Proof.
  induction commands as [|c rest IH]; [done|]. simpl.
  by destruct (Command.Label c == label).
Qed.

Lemma LoadConfig_Ok (unmarshalled loaded : Config.t) :
  LoadConfig unmarshalled = Ok loaded ->
  Config.Commands loaded = List.map generateCommand (Config.Commands unmarshalled) /\
  Config.ExitCmd loaded = Config.ExitCmd unmarshalled /\
  Config.HelpCmd loaded = Config.HelpCmd unmarshalled.
Proof.
  unfold LoadConfig, bind, failIf.
  destruct (Config.ExitCmd unmarshalled == ""); [done|].
  destruct (Config.HelpCmd unmarshalled == ""); [done|].
  destruct (length (Config.Commands unmarshalled) =? 0)%nat; [done|].
  destruct (validateCommands _ _ _); [|done].
  by intros [= <-].
Qed.

(** C1, as the code has it.  In a loaded grammar whose help command is
    [help] (and whose exit command is not the line itself), the line
    [show help] is answered by the help text of the command [show]: the
    usage line, the listing of its arguments and the option listing of
    every argument.  After the help token is cut off nothing remains
    behind the command label, and getHelpOutput then returns the command
    help without resolving any argument. *)
Theorem C1_show_help_returns_command_help :
  forall (unmarshalled loaded : Config.t) (show : Command.t),
    LoadConfig unmarshalled = Ok loaded ->
    Config.HelpCmd unmarshalled = "help" ->
    Config.ExitCmd unmarshalled <> "show help" ->
    findCommand (Config.Commands unmarshalled) "show" = Some show ->
    getOutput (New loaded) "show help" = (Command.helpCmd show, New loaded).
Proof.
  intros unmarshalled loaded show Hload Hhelp Hexit Hfind.
  apply LoadConfig_Ok in Hload as (Hcommands & HexitCmd & HhelpCmd).
  unfold getOutput.
  change (Trim "show help" whitespaceCharacters) with "show help".
  change ("show help" == "") with false. cbv iota.
  simpl config. rewrite HexitCmd, HhelpCmd, Hhelp.
  assert (Hne : ("show help" == Config.ExitCmd unmarshalled) = false).
  { apply String.eqb_neq. congruence. }
  rewrite Hne.
  change (HasSuffix "show help" "help") with true. cbv iota.
  change (TrimRight (sliceTo "show help" (len "show help" - len "help"))
            whitespaceCharacters) with "show".
  f_equal. unfold getHelpOutput, extractCommand.
  change ("show" == "") with false. cbv iota.
  change (Index "show" " ") with (@None nat). cbv iota beta.
  simpl config. rewrite Hcommands, findCommand_generated, Hfind. simpl.
  apply helpCmd_generated.
Qed.

Lemma C1_witness :
  getOutput Example.app "show help" = (Command.helpCmd Example.show, Example.app).
Proof.
  apply (C1_show_help_returns_command_help Example.unmarshalled Example.grammar
           Example.show).
  - reflexivity.
  - reflexivity.
  - vm_compute. discriminate.
  - reflexivity.
Defined.

(** C1 as stated fails on the example grammar: the text returned for
    [show help] is not the help text attached to the empty-label
    argument of [show]. *)
Lemma C1_counterexample :
  ~ (forall (show : Command.t) (arg : Argument.t),
        findCommand (Config.Commands Example.grammar) "show" = Some show ->
        In arg (Command.Arguments show) ->
        Argument.Label arg = "" ->
        fst (getOutput Example.app "show help") = Argument.help arg noFlags).
Proof.
  intros H.
  specialize (H (generateCommand Example.show)
                (generateArgument Example.show Example.noArguments)
                eq_refl (or_introl eq_refl) eq_refl).
  vm_compute in H. discriminate H.
Qed.

(** The help text of the empty-label argument is what a line with options
    before the help token returns, for instance [show -r help]. *)
Lemma Example_argument_help :
  fst (getOutput Example.app "show -r help")
  = Command.helpArg Example.show Example.noArguments.
Proof. vm_compute. reflexivity. Qed.

(** When the argument label ends the line, the options text ends in
    spaces, the split yields trailing empty tokens, and a short-form option
    in front of them has a next token: the empty string becomes its
    value, also for a required Variable. *)
Lemma Example_empty_next_token :
  extractArgument "-r daily-tasks" Example.show = Ok (Example.dailyTasks, "-r  ") /\
  exists flags,
    extractFlags "-r  " Example.dailyTasks = Ok flags /\
    mapping flags !! "readOnly"
    = Some {| isset := true; hasVar := true; variable := "" |}.
Proof.
  split; [vm_compute; reflexivity|].
  eexists. split; [vm_compute; reflexivity|]. vm_compute. reflexivity.
Qed.

(** Options without a short form do not collide on the empty [Short]
    field: the duplicate check skips empty shorts and longs. *)
Lemma Example_absent_short_is_not_shared : Argument.validate Example.longOnly = Ok tt.
Proof. vm_compute. reflexivity. Qed.

(** ** What validation guarantees *)

Section ValidateOptionsExact.

Variable argLabel : string.

Lemma seen_cons_iff (opt o : Option.t) (labels shorts longs : gmap string bool) :
  seen (<[Option.Label opt := true]> labels)
       (if Option.Short opt != "" then <[Option.Short opt := true]> shorts else shorts)
       (if Option.Long opt != "" then <[Option.Long opt := true]> longs else longs) o
  <-> seen labels shorts longs o \/ clash opt o.
Proof.
  split.
  - unfold seen, clash. intros [H|[[Hne H]|[Hne H]]].
    + apply alreadyExists_insert in H as [?|?]; auto.
    + destruct (String.eqb_spec (Option.Short opt) "") as [Hs|Hs]; simpl in H; [auto|].
      apply alreadyExists_insert in H as [?|?]; auto.
    + destruct (String.eqb_spec (Option.Long opt) "") as [Hl|Hl]; simpl in H; [auto 6|].
      apply alreadyExists_insert in H as [?|?]; auto 6.
  - intros [H|H]; [by apply seen_cons | by apply seen_after_clash].
Qed.

(** One iteration succeeds exactly when the option is valid and collides
    with nothing recorded so far. *)
Lemma validateOptions_cons_Ok (opt : Option.t) (rest : list Option.t)
    (labels shorts longs : gmap string bool) :
  Argument.validateOptions argLabel (opt :: rest) labels shorts longs = Ok tt <->
  Option.validate opt = Ok tt /\
  ~ seen labels shorts longs opt /\
  Argument.validateOptions argLabel rest
    (<[Option.Label opt := true]> labels)
    (if Option.Short opt != "" then <[Option.Short opt := true]> shorts else shorts)
    (if Option.Long opt != "" then <[Option.Long opt := true]> longs else longs)
  = Ok tt.
Proof.
  simpl. destruct (Option.validate opt) as [[]|e]; [|split; [done | by intros [? _]]].
  unfold bind, failIf, seen.
  destruct (alreadyExists labels (Option.Label opt));
    [split; [done | intros (_ & Hns & _); destruct Hns; auto]|].
  destruct (String.eqb_spec (Option.Short opt) "") as [Hs|Hs];
    destruct (String.eqb_spec (Option.Long opt) "") as [Hl|Hl]; simpl;
    repeat match goal with
           | |- context [alreadyExists ?m ?k] => destruct (alreadyExists m k)
           end;
    intuition congruence.
Qed.

Lemma validateOptions_Ok_iff (options : list Option.t)
    (labels shorts longs : gmap string bool) :
  Argument.validateOptions argLabel options labels shorts longs = Ok tt <->
  (forall o, In o options ->
             Option.validate o = Ok tt /\ ~ seen labels shorts longs o) /\
  (forall i j o1 o2, i < j -> options !! i = Some o1 -> options !! j = Some o2 ->
                     ~ clash o1 o2).
Proof.
  revert labels shorts longs.
  induction options as [|opt rest IH]; intros labels shorts longs.
  - simpl. split; [|done]. intros _. split; [by intros o []|]. by intros [|i] j.
  - rewrite validateOptions_cons_Ok, IH. split.
    + intros (Hv & Hns & Hall & Hpair). split.
      * intros o [<-|Hin]; [done|]. destruct (Hall o Hin) as [Hvo Hnso].
        split; [done|]. intros Hs. apply Hnso, seen_cons_iff. by left.
      * intros i j o1 o2 Hij Hi Hj. destruct j as [|j]; [lia|].
        destruct i as [|i]; simpl in Hi, Hj.
        -- injection Hi as <-. intros Hc.
           apply list_elem_of_lookup_2, list_elem_of_In in Hj.
           destruct (Hall o2 Hj) as [_ Hn]. apply Hn, seen_cons_iff. by right.
        -- apply (Hpair i j); [lia|done..].
    + intros (Hall & Hpair).
      destruct (Hall opt (or_introl eq_refl)) as [Hv Hns].
      split; [done|]. split; [done|]. split.
      * intros o Hin. split; [apply Hall; by right|].
        intros [Hs|Hc]%seen_cons_iff.
        -- by apply (proj2 (Hall o (or_intror Hin))).
        -- apply list_elem_of_In, list_elem_of_lookup_1 in Hin as [j Hj].
           by apply (Hpair 0 (S j) opt o); [lia|..].
      * intros i j o1 o2 Hij Hi Hj. apply (Hpair (S i) (S j)); [lia|done..].
Qed.

End ValidateOptionsExact.

Lemma not_seen_empty (o : Option.t) : ~ seen ∅ ∅ ∅ o.
Proof. unfold seen. rewrite !alreadyExists_empty. by intros [?|[[_ ?]|[_ ?]]]. Qed.

Lemma Argument_validate_Ok_iff :
  forall arg : Argument.t,
    Argument.validate arg = Ok tt <->
    ContainsAny (Argument.Label arg) specialWhitespace = false /\
    TrimLeft (Argument.Label arg) " " = Argument.Label arg /\
    TrimRight (Argument.Label arg) " " = Argument.Label arg /\
    (forall o, In o (Argument.Options arg) -> Option.validate o = Ok tt) /\
    (forall i j o1 o2, i <> j ->
                       Argument.Options arg !! i = Some o1 ->
                       Argument.Options arg !! j = Some o2 ->
                       ~ clash o1 o2).
Proof.
  intros arg. unfold Argument.validate, bind, failIf.
  destruct (ContainsAny _ _); [split; [done | by intros [? _]]|].
  destruct (String.eqb_spec (TrimLeft (Argument.Label arg) " ") (Argument.Label arg))
    as [Hl|Hl]; simpl; [|split; [done | by intros (_ & ? & _)]].
  destruct (String.eqb_spec (TrimRight (Argument.Label arg) " ") (Argument.Label arg))
    as [Hr|Hr]; simpl; [|split; [done | by intros (_ & _ & ? & _)]].
  rewrite validateOptions_Ok_iff. split.
  - intros [Hall Hpair]. repeat split; try done.
    + intros o Hin. by apply Hall.
    + intros i j o1 o2 Hij Hi Hj Hc.
      destruct (Nat.lt_total i j) as [Hlt|[->|Hlt]]; [|done|].
      * by apply (Hpair i j o1 o2).
      * apply (Hpair j i o2 o1); [done..|]. by apply clash_sym.
  - intros (_ & _ & _ & Hall & Hpair). split.
    + intros o Hin. split; [by apply Hall | apply not_seen_empty].
    + intros i j o1 o2 Hij. apply Hpair. lia.
Qed.

(** X1.  Argument.validate accepts an argument exactly when its label has
    no special whitespace and no space at either end, every option is valid
    on its own, and no two options at different positions clash (same
    label, same non-empty short, or same non-empty long). *)
Theorem X1_Argument_validate_accepts_iff :
  forall arg : Argument.t,
    Argument.validate arg = Ok tt <->
    ContainsAny (Argument.Label arg) specialWhitespace = false /\
    TrimLeft (Argument.Label arg) " " = Argument.Label arg /\
    TrimRight (Argument.Label arg) " " = Argument.Label arg /\
    (forall o, In o (Argument.Options arg) -> Option.validate o = Ok tt) /\
    (forall i j o1 o2, i <> j ->
                       Argument.Options arg !! i = Some o1 ->
                       Argument.Options arg !! j = Some o2 ->
                       ~ clash o1 o2).
Proof. exact Argument_validate_Ok_iff. Qed.

(** X2.  Whether Argument.validate accepts does not depend on the order
    of the options: an argument is accepted exactly when it is accepted
    with its option list permuted. *)
Theorem X2_Argument_validate_order_independent :
  forall (arg : Argument.t) (options' : list Option.t),
    Permutation (Argument.Options arg) options' ->
    (Argument.validate (withOptions arg options') = Ok tt <->
     Argument.validate arg = Ok tt).
Proof.
  assert (Hone : forall (arg : Argument.t) (options' : list Option.t),
             Permutation (Argument.Options arg) options' ->
             Argument.validate arg = Ok tt ->
             Argument.validate (withOptions arg options') = Ok tt).
  { intros arg options' Hperm.
    rewrite !Argument_validate_Ok_iff. simpl.
    intros (Hw & Hl & Hr & Hall & Hpair). repeat split; try done.
    - intros o Hin. apply Hall. by apply (Permutation_in _ (Permutation_sym Hperm)).
    - intros i j o1 o2 Hij Hi Hj.
      destruct (Permutation_two_positions _ _ _ _ _ _ (Permutation_sym Hperm) Hij Hi Hj)
        as (i' & j' & Hij' & Hi' & Hj').
      by apply (Hpair i' j'). }
  intros arg options' Hperm. split; [|by apply Hone].
  intros H. apply (Hone (withOptions arg options') (Argument.Options arg)) in H.
  - by destruct arg.
  - by apply Permutation_sym.
Qed.

Lemma X2_witness :
  Argument.validate
    (withOptions Example.longOnly [Example.quiet; Example.verbose]) = Ok tt <->
  Argument.validate Example.longOnly = Ok tt.
Proof.
  apply (X2_Argument_validate_order_independent Example.longOnly
           [Example.quiet; Example.verbose]).
  apply perm_swap.
Defined.

Section ValidateArgumentsExact.

Variable cmdLabel : string.

Lemma validateArguments_Ok_iff (arguments : list Argument.t)
    (labels : gmap string bool) :
  Command.validateArguments cmdLabel arguments labels = Ok tt <->
  (forall a, In a arguments ->
             Argument.validate a = Ok tt /\
             alreadyExists labels (Argument.Label a) = false) /\
  NoDup (List.map Argument.Label arguments).
Proof.
  revert labels. induction arguments as [|arg rest IH]; intros labels.
  - simpl. split; [|done]. intros _. split; [by intros a []|constructor].
  - simpl. destruct (Argument.validate arg) as [[]|e] eqn:Hv.
    + unfold bind, failIf.
      destruct (alreadyExists labels (Argument.Label arg)) eqn:Hseen.
      * split; [done|]. intros [Hall _].
        destruct (Hall arg (or_introl eq_refl)) as [_ ?]. congruence.
      * rewrite IH, NoDup_cons. split.
        -- intros [Hall Hnodup]. split; [|split; [|done]].
           ++ intros a [<-|Hin]; [done|]. destruct (Hall a Hin) as [Hva Hna].
              split; [done|].
              destruct (alreadyExists labels (Argument.Label a)) eqn:Ha; [|done].
              rewrite <- Hna. symmetry. apply alreadyExists_insert. auto.
           ++ intros Hin%list_elem_of_In%in_map_iff. destruct Hin as (a & Hlabel & Hin).
              destruct (Hall a Hin) as [_ Hna].
              assert (alreadyExists (<[Argument.Label arg := true]> labels)
                        (Argument.Label a) = true)
                by (apply alreadyExists_insert; auto).
              congruence.
        -- intros (Hall & Hfresh & Hnodup). split; [|done].
           intros a Hin. split; [apply Hall; by right|].
           destruct (alreadyExists (<[Argument.Label arg := true]> labels)
                       (Argument.Label a)) eqn:Ha; [|done].
           apply alreadyExists_insert in Ha as [Ha|Ha].
           ++ destruct Hfresh. rewrite Ha. apply list_elem_of_In, in_map. done.
           ++ destruct (Hall a (or_intror Hin)) as [_ ?]. congruence.
    + split; [done|]. intros [Hall _].
      destruct (Hall arg (or_introl eq_refl)) as [? _]. congruence.
Qed.

End ValidateArgumentsExact.

Lemma Command_validate_Ok_iff :
  forall cmd : Command.t,
    Command.validate cmd = Ok tt <->
    Command.Label cmd <> "" /\
    ContainsAny (Command.Label cmd) whitespaceCharacters = false /\
    Command.Arguments cmd <> [] /\
    (forall a, In a (Command.Arguments cmd) -> Argument.validate a = Ok tt) /\
    NoDup (List.map Argument.Label (Command.Arguments cmd)).
Proof.
  intros cmd. unfold Command.validate, bind, failIf.
  destruct (String.eqb_spec (Command.Label cmd) "") as [He|He];
    [split; [done | by intros [? _]]|].
  destruct (ContainsAny _ _); [split; [done | by intros (_ & ? & _)]|].
  destruct (Command.Arguments cmd) as [|arg rest] eqn:Hargs; simpl length.
  - simpl. split; [done | by intros (_ & _ & ? & _)].
  - change (S (length rest) =? 0)%nat with false. cbv iota.
    rewrite validateArguments_Ok_iff. split.
    + intros [Hall Hnodup]. repeat split; try done.
      intros a Hin. by apply Hall.
    + intros (_ & _ & _ & Hall & Hnodup). split; [|done].
      intros a Hin. split; [by apply Hall | apply alreadyExists_empty].
Qed.

(** X3.  Command.validate accepts a command exactly when its label is
    not empty and has no whitespace, it has at least one argument, every
    argument is valid, and the argument labels are pairwise different (so
    at most one of them is empty). *)
Theorem X3_Command_validate_accepts_iff :
  forall cmd : Command.t,
    Command.validate cmd = Ok tt <->
    Command.Label cmd <> "" /\
    ContainsAny (Command.Label cmd) whitespaceCharacters = false /\
    Command.Arguments cmd <> [] /\
    (forall a, In a (Command.Arguments cmd) -> Argument.validate a = Ok tt) /\
    NoDup (List.map Argument.Label (Command.Arguments cmd)).
Proof. exact Command_validate_Ok_iff. Qed.

(** The validation loop of LoadConfig looks at each command on its own. *)
Lemma validateCommands_Ok_iff (exitCmd helpCmd : string) (commands : list Command.t) :
  validateCommands exitCmd helpCmd commands = Ok tt <->
  forall c, In c commands ->
            Command.Label c <> exitCmd /\ Command.Label c <> helpCmd /\
            Command.validate c = Ok tt.
Proof.
  induction commands as [|cmd rest IH]; simpl.
  - split; [by intros _ c []|done].
  - unfold bind, failIf.
    destruct (String.eqb_spec (Command.Label cmd) exitCmd) as [He|He].
    { split; [done|]. intros H. by destruct (H cmd (or_introl eq_refl)). }
    destruct (String.eqb_spec (Command.Label cmd) helpCmd) as [Hh|Hh].
    { split; [done|]. intros H. by destruct (H cmd (or_introl eq_refl)) as (_ & ? & _). }
    destruct (Command.validate cmd) as [[]|e] eqn:Hv.
    + rewrite IH. split.
      * intros H c [<-|Hin]; [done | by apply H].
      * intros H c Hin. apply H. by right.
    + split; [done|]. intros H.
      destruct (H cmd (or_introl eq_refl)) as (_ & _ & ?). congruence.
Qed.

Lemma LoadConfig_succeeds_iff :
  forall unmarshalled : Config.t,
    (exists loaded, LoadConfig unmarshalled = Ok loaded) <->
    Config.ExitCmd unmarshalled <> "" /\
    Config.HelpCmd unmarshalled <> "" /\
    Config.Commands unmarshalled <> [] /\
    (forall c, In c (Config.Commands unmarshalled) ->
               Command.Label c <> Config.ExitCmd unmarshalled /\
               Command.Label c <> Config.HelpCmd unmarshalled /\
               Command.validate c = Ok tt).
Proof.
  intros unmarshalled. unfold LoadConfig, bind, failIf.
  destruct (String.eqb_spec (Config.ExitCmd unmarshalled) "") as [He|He].
  { split; [by intros [? ?] | by intros [? _]]. }
  destruct (String.eqb_spec (Config.HelpCmd unmarshalled) "") as [Hh|Hh].
  { split; [by intros [? ?] | by intros (_ & ? & _)]. }
  destruct (Config.Commands unmarshalled) as [|cmd rest] eqn:Hcmds.
  { simpl. split; [by intros [? ?] | by intros (_ & _ & ? & _)]. }
  change (length (cmd :: rest) =? 0)%nat with false. cbv iota.
  destruct (validateCommands _ _ (cmd :: rest)) as [[]|e] eqn:Hv.
  - pose proof (proj1 (validateCommands_Ok_iff _ _ _) Hv) as Hall.
    split; [|eauto]. intros _. split; [done|]. split; [done|]. split; [done|]. apply Hall.
  - split; [by intros [? ?]|]. intros (_ & _ & _ & Hall).
    pose proof (proj2 (validateCommands_Ok_iff _ _ _) Hall). congruence.
Qed.

(** X4.  LoadConfig succeeds exactly when the exit and help commands are
    not empty, there is at least one command, and every command is valid
    with a label different from both; it never compares the labels of two
    commands with each other. *)
Theorem X4_LoadConfig_succeeds_iff :
  forall unmarshalled : Config.t,
    (exists loaded, LoadConfig unmarshalled = Ok loaded) <->
    Config.ExitCmd unmarshalled <> "" /\
    Config.HelpCmd unmarshalled <> "" /\
    Config.Commands unmarshalled <> [] /\
    (forall c, In c (Config.Commands unmarshalled) ->
               Command.Label c <> Config.ExitCmd unmarshalled /\
               Command.Label c <> Config.HelpCmd unmarshalled /\
               Command.validate c = Ok tt).
Proof. exact LoadConfig_succeeds_iff. Qed.




(** Attaching the closures leaves validity as it is. *)
Lemma validateArguments_generated (command : Command.t) (cmdLabel : string)
    (arguments : list Argument.t) (labels : gmap string bool) :
  Command.validateArguments cmdLabel (List.map (generateArgument command) arguments) labels
  = Command.validateArguments cmdLabel arguments labels.
Proof.
  revert labels. induction arguments as [|a rest IH]; intros labels; [done|].
  cbn [List.map Command.validateArguments].
  change (Argument.validate (generateArgument command a)) with (Argument.validate a).
  destruct (Argument.validate a); [|done].
  cbn [generateArgument Argument.Label]. unfold bind.
  destruct (failIf _ _); [apply IH | done].
Qed.

Lemma Command_validate_generated (command : Command.t) :
  Command.validate (generateCommand command) = Command.validate command.
Proof.
  unfold Command.validate. cbn [generateCommand Command.Label Command.Arguments].
  by rewrite validateArguments_generated, length_map.
Qed.

(** X6.  Validation is idempotent: the configuration LoadConfig returns,
    with the help closures and placeholders attached, passes LoadConfig
    again. *)
Theorem X6_loaded_grammar_loads_again :
  forall (unmarshalled loaded : Config.t),
    LoadConfig unmarshalled = Ok loaded ->
    exists loaded', LoadConfig loaded = Ok loaded'.
Proof.
  intros unmarshalled loaded Hload.
  destruct (LoadConfig_Ok _ _ Hload) as (Hcommands & Hexit & Hhelp).
  assert (Hex : exists l, LoadConfig unmarshalled = Ok l) by eauto.
  apply LoadConfig_succeeds_iff in Hex as (He & Hh & Hne & Hall).
  apply (proj2 (LoadConfig_succeeds_iff _)). rewrite Hcommands, Hexit, Hhelp.
  split; [done|]. split; [done|]. split.
  - by destruct (Config.Commands unmarshalled).
  - intros c (c0 & <- & Hin)%in_map_iff.
    rewrite Command_validate_generated. exact (Hall c0 Hin).
Qed.

Lemma X6_witness : exists loaded', LoadConfig Example.grammar = Ok loaded'.
Proof.
  apply (X6_loaded_grammar_loads_again Example.unmarshalled Example.grammar).
  reflexivity.
Defined.

(** ** Valid options and the tokens they match *)

Lemma Index_cons (a : ascii) (s substr : string) :
  Index (String a s) substr
  = if HasPrefix (String a s) substr then Some 0 else option_map S (Index s substr).
Proof. reflexivity. Qed.

Lemma HasPrefix_char (a c : ascii) (s : string) :
  HasPrefix (String a s) (String c "") = Ascii.eqb a c.
Proof. unfold HasPrefix. by destruct (Ascii.eqb a c). Qed.

(** A string in which the byte [c] occurs contains a byte of every cutset
    that holds [c]. *)
Lemma Index_char_ContainsAny (s : string) (c : ascii) (chars : string) (index : nat) :
  Index s (String c "") = Some index ->
  inCutset c chars = true ->
  ContainsAny s chars = true.
Proof.
  intros Hindex Hc. revert index Hindex.
  induction s as [|a s IH]; intros index; [done|].
  rewrite Index_cons, HasPrefix_char. simpl.
  destruct (Ascii.eqb_spec a c) as [->|Hne].
  - intros _. by rewrite Hc.
  - destruct (Index s (String c "")) as [i|]; [|done].
    intros _. rewrite (IH i eq_refl). apply orb_true_r.
Qed.

(** What Option.validate guarantees about the two forms. *)
Lemma Option_validate_Ok (opt : Option.t) :
  Option.validate opt = Ok tt ->
  Option.Label opt <> "" /\
  (Option.Short opt <> "" \/ Option.Long opt <> "") /\
  (Option.Short opt <> "" ->
   HasPrefix (Option.Short opt) "-" = true /\
   len (Option.Short opt) = 2 /\
   ContainsAny (sliceFrom (Option.Short opt) 1) whitespaceCharacters = false /\
   ContainsAny (sliceFrom (Option.Short opt) 1) "[]{}()-=" = false) /\
  (Option.Long opt <> "" ->
   HasPrefix (Option.Long opt) "--" = true /\
   len (Option.Long opt) <> 2 /\
   ContainsAny (Option.Long opt) specialWhitespace = false /\
   ContainsAny (Option.Long opt) "[]{}()=" = false).
Proof.
  unfold Option.validate, bind, failIf.
  destruct (String.eqb_spec (Option.Label opt) "") as [|Hlabel]; [done|].
  destruct (ContainsAny (Option.Label opt) specialWhitespace); [done|].
  destruct (String.eqb_spec (Option.Short opt) "") as [Hs|Hs];
    destruct (String.eqb_spec (Option.Long opt) "") as [Hl|Hl]; simpl; try done.
  - destruct (HasPrefix (Option.Long opt) "--"); simpl; [|done].
    destruct (Nat.eqb_spec (len (Option.Long opt)) 2); [done|].
    destruct (ContainsAny (Option.Long opt) specialWhitespace); [done|].
    destruct (ContainsAny (Option.Long opt) "[]{}()="); [done|].
    intros _. repeat split; auto; done.
  - destruct (HasPrefix (Option.Short opt) "-"); simpl; [|done].
    destruct (Nat.eqb_spec (len (Option.Short opt)) 2); simpl; [|done].
    destruct (ContainsAny (sliceFrom (Option.Short opt) 1) whitespaceCharacters); [done|].
    destruct (ContainsAny (sliceFrom (Option.Short opt) 1) "[]{}()-="); [done|].
    intros _. repeat split; auto; done.
  - destruct (HasPrefix (Option.Short opt) "-"); simpl; [|done].
    destruct (Nat.eqb_spec (len (Option.Short opt)) 2); simpl; [|done].
    destruct (ContainsAny (sliceFrom (Option.Short opt) 1) whitespaceCharacters); [done|].
    destruct (ContainsAny (sliceFrom (Option.Short opt) 1) "[]{}()-="); [done|].
    destruct (HasPrefix (Option.Long opt) "--"); simpl; [|done].
    destruct (Nat.eqb_spec (len (Option.Long opt)) 2); [done|].
    destruct (ContainsAny (Option.Long opt) specialWhitespace); [done|].
    destruct (ContainsAny (Option.Long opt) "[]{}()="); [done|].
    intros _. repeat split; auto; done.
Qed.

(** Neither form of a valid option contains [=]. *)
Lemma valid_option_has_no_equals (opt : Option.t) (s : string) (index : nat) :
  Option.validate opt = Ok tt ->
  Index s "=" = Some index ->
  Option.Short opt <> s /\ Option.Long opt <> s.
Proof.
  intros Hv Hindex. apply Option_validate_Ok in Hv as (_ & _ & Hshort & Hlong).
  assert (Hne : s <> "") by (by intros ->).
  split; intros Heq.
  - destruct Hshort as (Hdash & Hlen & _ & Hchars); [congruence|].
    rewrite Heq in *.
    destruct s as [|a [|b [|c s]]]; try done.
    rewrite Index_cons, HasPrefix_char in Hindex.
    unfold HasPrefix in Hdash.
    destruct (Ascii.eqb_spec a "-") as [->|]; [|done].
    change (("-" =? "=")%char) with false in Hindex. cbv iota in Hindex.
    destruct (Index (String b "") "=") as [i|] eqn:Hi; [|done].
    change (sliceFrom (String "-" (String b "")) 1) with (String b "") in Hchars.
    by rewrite (Index_char_ContainsAny _ "=" "[]{}()-=" i) in Hchars.
  - destruct Hlong as (_ & _ & _ & Hchars); [congruence|].
    rewrite Heq in *.
    by rewrite (Index_char_ContainsAny _ "=" "[]{}()=" index) in Hchars.
Qed.

(** X7.  For an argument that passed validation, a token that contains
    [=] equals neither form of any option: it resolves to no option, and a
    dash token such as [--name=value] is skipped without any effect on the
    flags.  The value of an option cannot be given in the long form. *)
Theorem X7_equals_token_matches_nothing :
  forall (arg : Argument.t) (s : string) (index : nat),
    Argument.validate arg = Ok tt ->
    Index s "=" = Some index ->
    findOption (Argument.Options arg) s = None /\
    (HasPrefix s "-" = true ->
     forall rest st,
       tokenLoop (Argument.Options arg) (s :: rest) st
       = tokenLoop (Argument.Options arg) rest st).
Proof.
  intros arg s index Hv Hindex.
  apply Argument_validate_Ok_iff in Hv as (_ & _ & _ & Hall & _).
  assert (Hnone : findOption (Argument.Options arg) s = None).
  { apply findOption_None. intros o Hin.
    by apply (valid_option_has_no_equals o s index); [apply Hall|]. }
  split; [done|]. intros Hdash rest st. simpl.
  assert (Hne : (s == "") = false).
  { apply String.eqb_neq. by apply (HasPrefix_nonempty s "-"). }
  rewrite Hne, Hdash. unfold bind. by rewrite optionLoop_findOption, Hnone.
Qed.

Lemma X7_witness :
  findOption (Argument.Options Example.dailyTasks) "--read-only=yes" = None /\
  (HasPrefix "--read-only=yes" "-" = true ->
   forall rest st,
     tokenLoop (Argument.Options Example.dailyTasks) ("--read-only=yes" :: rest) st
     = tokenLoop (Argument.Options Example.dailyTasks) rest st).
Proof.
  apply (X7_equals_token_matches_nothing Example.dailyTasks "--read-only=yes" 11).
  - vm_compute. reflexivity.
  - vm_compute. reflexivity.
Defined.

(** X8.  For an argument that passed validation, a non-empty token equals
    a form of at most one option: two positions of the option list whose
    short or long equals the token are the same position, so the order of
    the options does not decide which option a token resolves to. *)
Theorem X8_token_matches_one_option :
  forall (arg : Argument.t) (s : string) (i j : nat) (o1 o2 : Option.t),
    Argument.validate arg = Ok tt ->
    s <> "" ->
    Argument.Options arg !! i = Some o1 ->
    Argument.Options arg !! j = Some o2 ->
    Option.Short o1 = s \/ Option.Long o1 = s ->
    Option.Short o2 = s \/ Option.Long o2 = s ->
    i = j.
Proof.
  intros arg s i j o1 o2 Hv Hne Hi Hj H1 H2.
  apply Argument_validate_Ok_iff in Hv as (_ & _ & _ & Hall & Hpair).
  destruct (decide (i = j)) as [|Hij]; [done|]. exfalso.
  specialize (Hpair i j o1 o2 Hij Hi Hj).
  apply list_elem_of_lookup_2, list_elem_of_In in Hi, Hj.
  destruct (Option_validate_Ok o1 (Hall o1 Hi)) as (_ & _ & Hs1 & Hl1).
  destruct (Option_validate_Ok o2 (Hall o2 Hj)) as (_ & _ & Hs2 & Hl2).
  destruct H1 as [H1|H1], H2 as [H2|H2].
  - apply Hpair. right. left. split; congruence.
  - destruct Hs1 as (_ & Hlen1 & _); [congruence|].
    destruct Hl2 as (_ & Hlen2 & _); [congruence|]. congruence.
  - destruct Hl1 as (_ & Hlen1 & _); [congruence|].
    destruct Hs2 as (_ & Hlen2 & _); [congruence|]. congruence.
  - apply Hpair. right. right. split; congruence.
Qed.

Lemma X8_witness : 0 = 0.
Proof.
  apply (X8_token_matches_one_option Example.dailyTasks "-r" 0 0
           Example.readOnlyVar4 Example.readOnlyVar4).
  - vm_compute. reflexivity.
  - discriminate.
  - reflexivity.
  - reflexivity.
  - by left.
  - by left.
Defined.

(** ** Command and argument resolution: the remaining cases *)

Lemma findCommand_Some (commands : list Command.t) (label : string) (c : Command.t) :
  findCommand commands label = Some c -> In c commands /\ Command.Label c = label.
Proof.
  induction commands as [|cmd rest IH]; simpl; [done|].
  destruct (String.eqb_spec (Command.Label cmd) label) as [Heq|Hne].
  - intros [= <-]. auto.
  - intros H. destruct (IH H). auto.
Qed.

Lemma findCommand_None (commands : list Command.t) (label : string) :
  findCommand commands label = None <->
  forall c, In c commands -> Command.Label c <> label.
Proof.
  induction commands as [|cmd rest IH]; simpl.
  - split; [by intros _ c []|done].
  - destruct (String.eqb_spec (Command.Label cmd) label) as [Heq|Hne].
    + split; [done|]. intros H. by destruct (H cmd (or_introl eq_refl)).
    + rewrite IH. split.
      * intros H c [<-|Hin]; [done | by apply H].
      * intros H c Hin. apply H. by right.
Qed.

Lemma TrimLeft_head (s cutset : string) (a : ascii) (rest : string) :
  TrimLeft s cutset = String a rest -> inCutset a cutset = false.
Proof.
  induction s as [|b s IH]; simpl; [done|].
  destruct (inCutset b cutset) eqn:Hb; [done|]. by intros [= <- _].
Qed.

(** The text before the first space holds no space. *)
Lemma Index_sliceTo_None (s substr : string) (index : nat) :
  substr <> "" ->
  Index s substr = Some index -> Index (sliceTo s index) substr = None.
Proof.
  intros Hne. revert index. induction s as [|a s IH]; intros index.
  - unfold Index. destruct substr; [done|]. by unfold HasPrefix.
  - rewrite Index_cons. destruct (HasPrefix (String a s) substr) eqn:Hp.
    + intros [= <-]. unfold sliceTo, Index. destruct substr; [done|]. by unfold HasPrefix.
    + destruct (Index s substr) as [i|] eqn:Hi; [|done]. intros [= <-].
      change (sliceTo (String a s) (S i)) with (String a (sliceTo s i)).
      rewrite Index_cons, (IH i eq_refl).
      destruct (HasPrefix (String a (sliceTo s i)) substr) eqn:Hp'; [|done].
      exfalso. revert Hp Hp'. clear. revert a s i.
      induction substr as [|c substr IHs]; intros a s i; [done|].
      change (HasPrefix (String a s) (String c substr))
        with (if Ascii.eqb a c then HasPrefix s substr else false).
      change (HasPrefix (String a (sliceTo s i)) (String c substr))
        with (if Ascii.eqb a c then HasPrefix (sliceTo s i) substr else false).
      destruct (Ascii.eqb a c); [|done].
      destruct substr as [|d substr]; [done|].
      destruct i as [|i]; [done|]. destruct s as [|b s]; [done|].
      change (sliceTo (String b s) (S i)) with (String b (sliceTo s i)).
      apply IHs.
Qed.

(** X9.  extractCommand takes the text before the first space (the whole
    input when there is none) as the command label.  It succeeds exactly
    when some command carries that label and then returns the first such
    command in configured order, with a remainder that does not start with
    a whitespace character and is empty when the input has no space;
    otherwise the error names that label.  The label itself never holds a
    space. *)
Theorem X9_extractCommand_first_word :
  forall (app : App) (input : string),
    let word :=
      match Index input " " with
      | Some index => sliceTo input index
      | None => input
      end in
    Index word " " = None /\
    match extractCommand app input with
    | Ok (cmd, remainingInput) =>
        findCommand (Config.Commands (config app)) word = Some cmd /\
        In cmd (Config.Commands (config app)) /\
        Command.Label cmd = word /\
        (Index input " " = None -> remainingInput = "") /\
        (forall a rest, remainingInput = String a rest -> isWhitespace a = false)
    | Err e =>
        e = ErrUnableToFindCommand word /\
        forall c, In c (Config.Commands (config app)) -> Command.Label c <> word
    end.
Proof.
  intros app input word. split.
  - unfold word. destruct (Index input " ") as [index|] eqn:Hindex; [|done].
    by apply Index_sliceTo_None.
  - unfold extractCommand, word.
    destruct (Index input " ") as [index|] eqn:Hindex.
    + destruct (findCommand _ (sliceTo input index)) as [cmd|] eqn:Hfind.
      * destruct (findCommand_Some _ _ _ Hfind). repeat split; try done.
        intros a rest Hrem. by apply (TrimLeft_head _ _ _ _ Hrem).
      * split; [done|]. by apply findCommand_None.
    + destruct (findCommand _ input) as [cmd|] eqn:Hfind.
      * destruct (findCommand_Some _ _ _ Hfind). by repeat split.
      * split; [done|]. by apply findCommand_None.
Qed.

Section ArgumentLoopFailure.

Variable remainingInput : string.

Lemma argumentLoop_None (arguments : list Argument.t)
    (found : option (Argument.t * string)) :
  argumentLoop arguments remainingInput found = None ->
  found = None /\
  forall a, In a arguments ->
            Argument.Label a <> "" /\ forall i, ~ accepted remainingInput a i.
Proof.
  revert found. induction arguments as [|arg rest IH]; intros found; simpl.
  - intros ->. split; [done | by intros a []].
  - destruct (String.eqb_spec (Argument.Label arg) "") as [Hempty|Hne].
    { intros H. by destruct (IH _ H). }
    destruct (Index remainingInput (Argument.Label arg)) as [index|] eqn:Hindex.
    + destruct (sliceFrom remainingInput (index + len (Argument.Label arg)) != "")
        eqn:Hafter; simpl; [|done].
      destruct (HasPrefix _ " ") eqn:Hsp; simpl; [done|].
      intros H. destruct (IH _ H) as [-> Hrest]. split; [done|].
      intros a [<-|Hin]; [|by apply Hrest]. split; [done|].
      intros i (_ & Hi & Hok). simpl in Hok.
      rewrite Hindex in Hi. injection Hi as <-.
      apply neqb_true in Hafter. destruct Hok; congruence.
    + intros H. destruct (IH _ H) as [-> Hrest]. split; [done|].
      intros a [<-|Hin]; [|by apply Hrest]. split; [done|].
      intros i (_ & Hi & _). congruence.
Qed.

End ArgumentLoopFailure.

(** X10.  extractArgument fails exactly when the command has no
    empty-label argument and no argument label is accepted in the
    remainder; the error then names the command.  A command with an
    empty-label argument resolves every remainder. *)
Theorem X10_extractArgument_fails_iff :
  forall (command : Command.t) (remainingInput : string),
    ((exists e, extractArgument remainingInput command = Err e) <->
     (forall a, In a (Command.Arguments command) ->
                Argument.Label a <> "" /\ forall i, ~ accepted remainingInput a i)) /\
    (forall e, extractArgument remainingInput command = Err e ->
               e = ErrNoValidArgument (Command.Label command)) /\
    (forall a, In a (Command.Arguments command) -> Argument.Label a = "" ->
               exists found, extractArgument remainingInput command = Ok found).
Proof.
  intros command remainingInput. unfold extractArgument.
  destruct (argumentLoop _ _ _) as [found|] eqn:Hloop.
  - split; [|split; [done | eauto]]. split; [by intros [? ?]|].
    intros Hall. rewrite argumentLoop_none_accepted in Hloop; [done| |].
    + intros a i Hin. by apply Hall.
    + intros a Hin. by apply Hall.
  - apply argumentLoop_None in Hloop as [_ Hall].
    split; [split; eauto|]. split; [by intros e [= <-]|].
    intros a Hin Hempty. by destruct (Hall a Hin).
Qed.

(** ** Flag resolution: defaults, values and errors *)

Lemma defaultMetadata_lookup (options : list Option.t) (label : string) :
  In label (List.map Option.Label options) ->
  defaultMetadata options !! label = Some unset.
Proof.
  unfold defaultMetadata.
  assert (H : forall m : gmap string flagMetadata,
             (m !! label = Some unset \/ In label (List.map Option.Label options)) ->
             fold_left
               (fun metadata option =>
                  <[Option.Label option :=
                      {| isset := false; hasVar := false; variable := "" |}]> metadata)
               options m !! label = Some unset).
  { induction options as [|o os IH]; intros m; simpl.
    - by intros [?|[]].
    - intros Hm. apply IH.
      destruct (decide (Option.Label o = label)) as [->|Hne].
      + left. apply lookup_insert_eq.
      + rewrite lookup_insert_ne by done. destruct Hm as [?|[?|?]]; auto. done. }
  intros Hin. apply H. by right.
Qed.

(** Every entry of the map is the initial one or has [isset] true. *)
Lemma tokenLoop_entries (options : list Option.t) (tokens : list string) (st st' : scan) :
  (forall label meta, metadata st !! label = Some meta ->
                      meta = unset \/ isset meta = true) ->
  tokenLoop options tokens st = Ok st' ->
  forall label meta, metadata st' !! label = Some meta ->
                     meta = unset \/ isset meta = true.
Proof.
  revert st. induction tokens as [|t tokens IH]; intros st Hinv; simpl.
  - by intros [= <-].
  - destruct (t == ""); [by apply IH|].
    destruct (HasPrefix t "-").
    + unfold bind. rewrite optionLoop_findOption.
      destruct (findOption options t) as [o|]; [|by apply IH].
      destruct (matchedOption t (head tokens) st o) as [st1|] eqn:Hm; [|done].
      apply IH. intros label meta. revert Hm. unfold matchedOption, bind, setFlag.
      destruct (Option.Variable_ o) as [va|].
      * destruct (Option.Short o == t).
        -- destruct (head tokens).
           ++ intros [= <-]. simpl.
              destruct (decide (Option.Label o = label)) as [->|Hne].
              ** rewrite lookup_insert_eq. intros [= <-]. by right.
              ** rewrite lookup_insert_ne by done. apply Hinv.
           ++ destruct (Variable_.Required va); [done|]. intros [= <-]. simpl.
              destruct (decide (Option.Label o = label)) as [->|Hne].
              ** rewrite lookup_insert_eq. intros [= <-]. by right.
              ** rewrite lookup_insert_ne by done. apply Hinv.
        -- destruct (Index t "=").
           ++ intros [= <-]. simpl.
              destruct (decide (Option.Label o = label)) as [->|Hne].
              ** rewrite lookup_insert_eq. intros [= <-]. by right.
              ** rewrite lookup_insert_ne by done. apply Hinv.
           ++ destruct (Variable_.Required va); [done|]. intros [= <-]. simpl.
              destruct (decide (Option.Label o = label)) as [->|Hne].
              ** rewrite lookup_insert_eq. intros [= <-]. by right.
              ** rewrite lookup_insert_ne by done. apply Hinv.
      * intros [= <-]. simpl.
        destruct (decide (Option.Label o = label)) as [->|Hne].
        -- rewrite lookup_insert_eq. intros [= <-]. by right.
        -- rewrite lookup_insert_ne by done. apply Hinv.
    + destruct (negb (expectingValue st)); [done | by apply IH].
Qed.

Lemma defaultMetadata_entries (options : list Option.t) (label : string)
    (meta : flagMetadata) :
  defaultMetadata options !! label = Some meta -> meta = unset.
Proof.
  intros Hlookup.
  assert (Hin : In label (List.map Option.Label options)).
  { apply list_elem_of_In, (elem_of_list_to_set (C := gset string)).
    rewrite <- defaultMetadata_dom. apply elem_of_dom. eauto. }
  rewrite (defaultMetadata_lookup _ _ Hin) in Hlookup. congruence.
Qed.

(** Only a token that starts with a dash reaches the option loop: tokens
    of that kind that resolve to options with other labels, and all other
    tokens, leave the entry of [label] alone. *)
Lemma tokenLoop_lookup_unnamed (options : list Option.t) (label : string)
    (tokens : list string) (st st' : scan) :
  (forall t o, In t tokens -> HasPrefix t "-" = true ->
               findOption options t = Some o -> Option.Label o <> label) ->
  tokenLoop options tokens st = Ok st' ->
  metadata st' !! label = metadata st !! label.
Proof.
  revert st. induction tokens as [|t tokens IH]; intros st Hother; simpl.
  - by intros [= <-].
  - assert (Htail : forall t' o, In t' tokens -> HasPrefix t' "-" = true ->
                                 findOption options t' = Some o ->
                                 Option.Label o <> label)
      by (intros t' o Hin; apply Hother; by right).
    destruct (t == ""); [by apply IH|].
    destruct (HasPrefix t "-") eqn:Hdash.
    + unfold bind. rewrite optionLoop_findOption.
      destruct (findOption options t) as [o|] eqn:Hfind; [|by apply IH].
      destruct (matchedOption t (head tokens) st o) as [st1|] eqn:Hm; [|done].
      intros Hloop. rewrite (IH st1 Htail Hloop).
      destruct (matchedOption_metadata _ _ _ _ _ Hm) as [meta ->].
      apply lookup_insert_ne. apply (Hother t o); [by left | done..].
    + destruct (negb (expectingValue st)); [done | by apply IH].
Qed.

(** X11.  An option that no dash token of the options text resolves to
    keeps its initial metadata in the result of extractFlags: [IsSet] is
    false and [GetVar] returns the empty string and false.  Empty tokens
    and tokens without a leading dash never reach the option loop and do
    not count. *)
Theorem X11_unnamed_option_stays_unset :
  forall (optionsInput : string) (arg : Argument.t) (flags : Flags) (label : string),
    extractFlags optionsInput arg = Ok flags ->
    In label (List.map Option.Label (Argument.Options arg)) ->
    (forall t o, In t (Split optionsInput " ") ->
                 HasPrefix t "-" = true ->
                 findOption (Argument.Options arg) t = Some o ->
                 Option.Label o <> label) ->
    mapping flags !! label = Some unset /\
    Exists flags label = true /\
    IsSet flags label = false /\
    GetVar flags label = ("", false).
Proof.
  intros optionsInput arg flags label Hflags Hin Hother.
  apply extractFlags_Ok in Hflags as (st & Hloop & ->).
  assert (Hlookup : metadata st !! label = Some unset).
  { rewrite (tokenLoop_lookup_unnamed _ _ _ _ _ Hother Hloop). simpl.
    by apply defaultMetadata_lookup. }
  unfold Exists, IsSet, GetVar. simpl. by rewrite Hlookup.
Qed.

Lemma X11_witness :
  mapping (match extractFlags "" Example.longOnly with
           | Ok flags => flags
           | Err _ => noFlags
           end) !! "verbose" = Some unset.
Proof.
  refine (proj1 (X11_unnamed_option_stays_unset "" Example.longOnly _ "verbose"
                   _ _ _)).
  - vm_compute. reflexivity.
  - by left.
  - intros t o [<-|[]]. vm_compute. discriminate.
Defined.

(** X12.  In the result of extractFlags every entry is the initial one or
    has [isset] true, so an entry with a value is always set: [GetVar]
    reports a value exactly when the entry has one, and whenever it does
    [IsSet] and [Exists] are true as well. *)
Theorem X12_flag_entries_are_consistent :
  forall (optionsInput : string) (arg : Argument.t) (flags : Flags)
         (label : string) (meta : flagMetadata),
    extractFlags optionsInput arg = Ok flags ->
    mapping flags !! label = Some meta ->
    (meta = unset \/ isset meta = true) /\
    GetVar flags label = (if hasVar meta then (variable meta, true) else ("", false)) /\
    (snd (GetVar flags label) = true -> IsSet flags label = true) /\
    (IsSet flags label = true -> Exists flags label = true).
Proof.
  intros optionsInput arg flags label meta Hflags Hlookup.
  apply extractFlags_Ok in Hflags as (st & Hloop & ->). simpl in Hlookup.
  assert (Hinv : meta = unset \/ isset meta = true).
  { refine (tokenLoop_entries _ _ _ _ _ Hloop label meta Hlookup).
    intros l m H. left. by apply (defaultMetadata_entries (Argument.Options arg) l). }
  unfold GetVar, IsSet, Exists. simpl. rewrite Hlookup.
  split; [done|]. destruct Hinv as [->|Hset]; [by simpl|].
  rewrite Hset. simpl. by destruct (hasVar meta).
Qed.

Lemma X12_witness :
  GetVar (match extractFlags "  -r extra" Example.dailyTasks with
          | Ok flags => flags
          | Err _ => noFlags
          end) "readOnly" = ("extra", true).
Proof.
  refine (proj1 (proj2 (X12_flag_entries_are_consistent "  -r extra" Example.dailyTasks
                          _ "readOnly"
                          {| isset := true; hasVar := true; variable := "extra" |} _ _))).
  - vm_compute. reflexivity.
  - vm_compute. reflexivity.
Defined.

(** X13.  A non-empty token that does not start with a dash is an
    "invalid text" error as long as [expectingValue] is false; in
    particular extractFlags fails with that error when the first non-empty
    token of the options text is such a token. *)
Theorem X13_bare_token_is_invalid_text :
  forall (options : list Option.t) (s : string),
    s <> "" ->
    HasPrefix s "-" = false ->
    (forall rest st, expectingValue st = false ->
                     tokenLoop options (s :: rest) st = Err (ErrInvalidText s)) /\
    (forall arg optionsInput before after,
        Argument.Options arg = options ->
        Split optionsInput " " = (before ++ s :: after)%list ->
        (forall t, In t before -> t = "") ->
        extractFlags optionsInput arg = Err (ErrInvalidText s)).
Proof.
  intros options s Hne Hdash.
  assert (Hstep : forall rest st, expectingValue st = false ->
                                  tokenLoop options (s :: rest) st = Err (ErrInvalidText s)).
  { intros rest st Hev. simpl. apply String.eqb_neq in Hne.
    by rewrite Hne, Hdash, Hev. }
  split; [done|].
  intros arg optionsInput before after <- Hsplit Hempty.
  unfold extractFlags, bind. by rewrite Hsplit, tokenLoop_skip_empty, Hstep.
Qed.

Lemma X13_witness :
  extractFlags "  extra -r" Example.dailyTasks = Err (ErrInvalidText "extra").
Proof.
  refine (proj2 (X13_bare_token_is_invalid_text
                   (Argument.Options Example.dailyTasks) "extra" _ _)
            Example.dailyTasks "  extra -r" [""; ""] ["-r"] _ _ _).
  - discriminate.
  - reflexivity.
  - reflexivity.
  - reflexivity.
  - intros t [<-|[<-|[]]]; reflexivity.
Defined.

Lemma tokenLoop_dash (options : list Option.t) (s : string) (rest : list string)
    (st : scan) (option : Option.t) :
  HasPrefix s "-" = true ->
  findOption options s = Some option ->
  tokenLoop options (s :: rest) st
  = match matchedOption s (head rest) st option with
    | Ok st' => tokenLoop options rest st'
    | Err e => Err e
    end.
Proof.
  intros Hdash Hfind. simpl.
  assert (Hne : (s == "") = false).
  { apply String.eqb_neq. by apply (HasPrefix_nonempty s "-"). }
  rewrite Hne, Hdash. unfold bind. by rewrite optionLoop_findOption, Hfind.
Qed.

(** X14.  A short-form token of an option with a Variable that is followed
    by another token takes that token verbatim as its value, whether it is
    empty, starts with a dash or not, sets [expectingValue], and leaves the
    token in the list: the loop scans it next as a token of its own. *)
Theorem X14_short_form_takes_next_token :
  forall (options : list Option.t) (s next : string) (rest : list string) (st : scan)
         (option : Option.t) (va : Variable_.t),
    HasPrefix s "-" = true ->
    findOption options s = Some option ->
    Option.Short option = s ->
    Option.Variable_ option = Some va ->
    tokenLoop options (s :: next :: rest) st
    = tokenLoop options (next :: rest)
        (setFlag st (Option.Label option)
           {| isset := true; hasVar := true; variable := next |} true).
Proof.
  intros options s next rest st option va Hdash Hfind Hshort Hva.
  rewrite (tokenLoop_dash _ _ _ _ _ Hdash Hfind).
  unfold matchedOption, bind. apply String.eqb_eq in Hshort.
  by rewrite Hva, Hshort.
Qed.

Lemma X14_witness :
  tokenLoop [Example.readOnlyVar4] ["-r"; "-r"] {| metadata := ∅; expectingValue := false |}
  = tokenLoop [Example.readOnlyVar4] ["-r"]
      (setFlag {| metadata := ∅; expectingValue := false |} "readOnly"
         {| isset := true; hasVar := true; variable := "-r" |} true).
Proof.
  apply (X14_short_form_takes_next_token [Example.readOnlyVar4] "-r" "-r" []
           {| metadata := ∅; expectingValue := false |}
           Example.readOnlyVar4 Example.var4); reflexivity.
Defined.

Lemma ContainsAny_Index_None (s : string) (c : ascii) (chars : string) :
  inCutset c chars = true ->
  ContainsAny s chars = false ->
  Index s (String c "") = None.
Proof.
  intros Hc Hnone. destruct (Index s (String c "")) as [i|] eqn:Hi; [|done].
  rewrite (Index_char_ContainsAny _ _ _ _ Hi Hc) in Hnone. done.
Qed.

Lemma HasPrefix_dashes (s : string) : HasPrefix s "--" = true -> HasPrefix s "-" = true.
Proof.
  destruct s as [|a s]; [done|]. unfold HasPrefix.
  by destruct (Ascii.eqb a "-").
Qed.

(** X15.  In an argument that passed validation, the long form of an
    option with a Variable never carries a value: the token equal to the
    long form fails with the "required option ... missing required
    variable" error when the Variable is required, and otherwise records
    the Variable's default, leaving [expectingValue] as it was. *)
Theorem X15_long_form_of_valid_option :
  forall (arg : Argument.t) (s : string) (option : Option.t) (va : Variable_.t),
    Argument.validate arg = Ok tt ->
    s <> "" ->
    findOption (Argument.Options arg) s = Some option ->
    Option.Long option = s ->
    Option.Variable_ option = Some va ->
    (Variable_.Required va = true ->
     forall rest st,
       tokenLoop (Argument.Options arg) (s :: rest) st
       = Err (ErrRequiredOptionMissingVariable (Option.Label option) (Variable_.Label va))) /\
    (Variable_.Required va = false ->
     forall rest st,
       tokenLoop (Argument.Options arg) (s :: rest) st
       = tokenLoop (Argument.Options arg) rest
           (setFlag st (Option.Label option)
              {| isset := true; hasVar := true; variable := Variable_.Default va |}
              (expectingValue st))).
Proof.
  intros arg s option va Hv Hne Hfind Hlong Hva.
  apply Argument_validate_Ok_iff in Hv as (_ & _ & _ & Hall & _).
  destruct (findOption_Some _ _ _ Hfind) as [Hin _].
  destruct (Option_validate_Ok option (Hall option Hin)) as (_ & _ & Hs & Hl).
  destruct Hl as (Hdashes & Hlen & _ & Hchars); [congruence|].
  rewrite Hlong in *.
  assert (Hdash : HasPrefix s "-" = true) by (by apply HasPrefix_dashes).
  assert (Hindex : Index s "=" = None)
    by (by apply (ContainsAny_Index_None s "=" "[]{}()=")).
  assert (Hshort : (Option.Short option == s) = false).
  { apply String.eqb_neq. intros Heq.
    destruct Hs as (_ & Hlen2 & _); [congruence|]. congruence. }
  split; intros Hreq rest st; rewrite (tokenLoop_dash _ _ _ _ _ Hdash Hfind);
    unfold matchedOption, bind; by rewrite Hva, Hshort, Hindex, Hreq.
Qed.

Lemma X15_witness :
  tokenLoop (Argument.Options Example.dailyTasks) ["--read-only"]
    {| metadata := ∅; expectingValue := false |}
  = Err (ErrRequiredOptionMissingVariable "readOnly" "var4").
Proof.
  refine (proj1 (X15_long_form_of_valid_option Example.dailyTasks "--read-only"
                   Example.readOnlyVar4 Example.var4 _ _ _ _ _) _ [] _).
  - vm_compute. reflexivity.
  - discriminate.
  - reflexivity.
  - reflexivity.
  - reflexivity.
  - reflexivity.
Defined.

(** X16.  A dash token that resolves to an option without a Variable, by
    its short or its long form, marks the option as set without a value
    and leaves [expectingValue] as it was; unless a later dash token
    resolves to an option with the same label, the result of extractFlags
    has [IsSet] true for the label and [GetVar] returns the empty string
    and false.  Later empty tokens and tokens without a leading dash do
    not count. *)
Theorem X16_option_without_variable :
  forall (options : list Option.t) (s : string) (option : Option.t),
    HasPrefix s "-" = true ->
    findOption options s = Some option ->
    Option.Variable_ option = None ->
    let marked := {| isset := true; hasVar := false; variable := "" |} in
    (forall rest st,
        tokenLoop options (s :: rest) st
        = tokenLoop options rest
            (setFlag st (Option.Label option) marked (expectingValue st))) /\
    (forall arg optionsInput before after flags,
        Argument.Options arg = options ->
        Split optionsInput " " = (before ++ s :: after)%list ->
        (forall t o, In t after -> HasPrefix t "-" = true ->
                     findOption options t = Some o ->
                     Option.Label o <> Option.Label option) ->
        extractFlags optionsInput arg = Ok flags ->
        mapping flags !! Option.Label option = Some marked /\
        IsSet flags (Option.Label option) = true /\
        GetVar flags (Option.Label option) = ("", false)).
Proof.
  intros options s option Hdash Hfind Hva marked.
  assert (Hstep : forall rest st,
             tokenLoop options (s :: rest) st
             = tokenLoop options rest
                 (setFlag st (Option.Label option) marked (expectingValue st))).
  { intros rest st. rewrite (tokenLoop_dash _ _ _ _ _ Hdash Hfind).
    unfold matchedOption. by rewrite Hva. }
  split; [done|].
  intros arg optionsInput before after flags <- Hsplit Hafter Hflags.
  apply extractFlags_Ok in Hflags as (st & Hloop & ->).
  rewrite Hsplit in Hloop. apply tokenLoop_app in Hloop as [st1 Hloop].
  rewrite Hstep in Hloop.
  assert (Hlookup : metadata st !! Option.Label option = Some marked).
  { rewrite (tokenLoop_lookup_unnamed _ _ _ _ _ Hafter Hloop). simpl.
    apply lookup_insert_eq. }
  unfold IsSet, GetVar. simpl. by rewrite Hlookup.
Qed.

Lemma X16_witness :
  IsSet (match extractFlags "--verbose  " Example.longOnly with
         | Ok flags => flags
         | Err _ => noFlags
         end) "verbose" = true.
Proof.
  refine (proj1 (proj2 (proj2 (X16_option_without_variable
                                 [Example.verbose; Example.quiet] "--verbose"
                                 Example.verbose _ _ _)
                          Example.longOnly "--verbose  " [] [""; ""] _ _ _ _ _))).
  - reflexivity.
  - reflexivity.
  - reflexivity.
  - reflexivity.
  - reflexivity.
  - intros t o [<-|[<-|[]]]; vm_compute; discriminate.
  - vm_compute. reflexivity.
Defined.

(** ** Whole lines: blank input, exit and help *)

Lemma TrimLeft_allWhitespace (s : string) :
  allWhitespace s = true -> TrimLeft s whitespaceCharacters = "".
Proof.
  induction s as [|a s IH]; [done|].
  cbn [allWhitespace TrimLeft]. unfold isWhitespace.
  intros [Ha Hs]%andb_true_iff. rewrite Ha. by apply IH.
Qed.

Lemma HasSuffix_append (prefix suffix : string) :
  HasSuffix (prefix +:+ suffix) suffix = true.
Proof.
  unfold HasSuffix. rewrite len_append.
  replace (len prefix + len suffix - len suffix) with (len prefix) by lia.
  rewrite sliceFrom_append, String.eqb_refl.
  apply andb_true_iff. split; [|done]. apply Nat.leb_le. lia.
Qed.

(** X17.  A line that consists of whitespace characters only (the empty
    line included) produces no output and leaves the App as it is. *)
Theorem X17_blank_line_gives_no_output :
  forall (app : App) (input : string),
    allWhitespace input = true ->
    getOutput app input = ("", app).
Proof.
  intros app input Hblank. unfold getOutput, Trim.
  by rewrite (TrimLeft_allWhitespace _ Hblank).
Qed.

Lemma X17_witness :
  getOutput Example.app (" " +:+ TAB +:+ " " +:+ CR +:+ LF) = ("", Example.app).
Proof.
  apply (X17_blank_line_gives_no_output Example.app).
  vm_compute. reflexivity.
Defined.

(** X18.  The trimmed line is compared with the exit command before
    anything else: when they are equal (and not empty) the output is that
    of the exit function and [active] is cleared, also when the exit
    command ends with the help command.  Every other line leaves the App,
    its configuration and its [active] flag, exactly as it was. *)
Theorem X18_only_the_exit_command_deactivates :
  forall (app : App) (input : string),
    (Trim input whitespaceCharacters <> "" ->
     Trim input whitespaceCharacters = Config.ExitCmd (config app) ->
     getOutput app input
     = (Config.exit (config app) noFlags, {| config := config app; active := false |})) /\
    (Trim input whitespaceCharacters = "" \/
     Trim input whitespaceCharacters <> Config.ExitCmd (config app) ->
     snd (getOutput app input) = app).
Proof.
  intros app input. unfold getOutput.
  destruct (String.eqb_spec (Trim input whitespaceCharacters) "") as [He|He].
  { split; [done|]. by intros _. }
  destruct (String.eqb_spec (Trim input whitespaceCharacters)
              (Config.ExitCmd (config app))) as [Hx|Hx].
  { split; [done|]. by intros [?|?]. }
  split; [done|]. intros _.
  destruct (HasSuffix _ _); [done|].
  destruct (extractCommand app _) as [[command remainingInput]|e]; [|done].
  destruct (extractArgument remainingInput command) as [[argument optionsInput]|e]; [|done].
  by destruct (extractFlags optionsInput argument).
Qed.

Lemma X18_witness :
  getOutput Example.app ("  leave" +:+ LF)
  = ("", {| config := Example.grammar; active := false |}).
Proof.
  refine (proj1 (X18_only_the_exit_command_deactivates Example.app ("  leave" +:+ LF)) _ _).
  - vm_compute. discriminate.
  - vm_compute. reflexivity.
Defined.

Lemma getOutput_help_suffix (app : App) (input prefix : string) :
  Trim input whitespaceCharacters = prefix +:+ Config.HelpCmd (config app) ->
  Trim input whitespaceCharacters <> "" ->
  Trim input whitespaceCharacters <> Config.ExitCmd (config app) ->
  getOutput app input = (getHelpOutput app (TrimRight prefix whitespaceCharacters), app).
Proof.
  intros Htrim Hne Hexit. unfold getOutput.
  apply String.eqb_neq in Hne, Hexit. rewrite Hne, Hexit, Htrim.
  rewrite HasSuffix_append, len_append.
  replace (len prefix + len (Config.HelpCmd (config app))
           - len (Config.HelpCmd (config app))) with (len prefix) by lia.
  by rewrite sliceTo_append.
Qed.

(** X19.  Help detection looks at the last bytes of the trimmed line only:
    whenever the line ends with the help command, also in the middle of a
    word, the rest of the line (trailing whitespace removed) is handed to
    getHelpOutput and nothing is dispatched. *)
Theorem X19_help_suffix_has_no_word_boundary :
  forall (app : App) (input prefix : string),
    Trim input whitespaceCharacters = prefix +:+ Config.HelpCmd (config app) ->
    Trim input whitespaceCharacters <> "" ->
    Trim input whitespaceCharacters <> Config.ExitCmd (config app) ->
    getOutput app input = (getHelpOutput app (TrimRight prefix whitespaceCharacters), app).
Proof. exact getOutput_help_suffix. Qed.

Lemma X19_witness :
  getOutput Example.app "show daily-tasks --nohelp"
  = (Command.helpArg Example.show Example.dailyTasks, Example.app).
Proof.
  rewrite (X19_help_suffix_has_no_word_boundary Example.app
             "show daily-tasks --nohelp" "show daily-tasks --no").
  - vm_compute. reflexivity.
  - vm_compute. reflexivity.
  - vm_compute. discriminate.
  - vm_compute. discriminate.
Defined.

Lemma LoadConfig_help (unmarshalled loaded : Config.t) :
  LoadConfig unmarshalled = Ok loaded ->
  Config.help loaded noFlags
  = fold_left (fun output command => output +:+ Command.helpCmd command)
      (Config.Commands unmarshalled) "".
Proof.
  unfold LoadConfig, bind, failIf.
  destruct (Config.ExitCmd unmarshalled == ""); [done|].
  destruct (Config.HelpCmd unmarshalled == ""); [done|].
  destruct (length (Config.Commands unmarshalled) =? 0)%nat; [done|].
  destruct (validateCommands _ _ _); [|done].
  intros [= <-]. unfold Config.createHelp. cbn [Config.help Config.Commands].
  generalize "". induction (Config.Commands unmarshalled) as [|c rest IH]; intros acc.
  - done.
  - cbn [List.map fold_left]. by rewrite helpCmd_generated, IH.
Qed.



(** Resolution reads labels and options only, which attaching the
    closures leaves as they are. *)
Section GeneratedResolution.

Variable command : Command.t.

Lemma argumentLoop_generated (arguments : list Argument.t) (remainingInput : string)
    (found : option (Argument.t * string)) :
  argumentLoop (List.map (generateArgument command) arguments) remainingInput
    (option_map (fun f => (generateArgument command (fst f), snd f)) found)
  = option_map (fun f => (generateArgument command (fst f), snd f))
      (argumentLoop arguments remainingInput found).
Proof.
  revert found. induction arguments as [|a rest IH]; intros found; [done|].
  cbn [List.map argumentLoop generateArgument Argument.Label].
  destruct (Argument.Label a == "").
  - apply (IH (Some (a, remainingInput))).
  - destruct (Index remainingInput (Argument.Label a)); [|apply IH].
    destruct (_ && _); [apply IH | done].
Qed.

Lemma extractArgument_generated (remainingInput : string) :
  extractArgument remainingInput (generateCommand command)
  = match extractArgument remainingInput command with
    | Ok (argument, optionsInput) => Ok (generateArgument command argument, optionsInput)
    | Err err => Err err
    end.
Proof.
  unfold extractArgument. cbn [generateCommand Command.Arguments Command.Label].
  rewrite (argumentLoop_generated _ _ None).
  by destruct (argumentLoop _ _ _) as [[a o]|].
Qed.

End GeneratedResolution.

Lemma extractCommand_loaded (unmarshalled loaded : Config.t) (input : string) :
  LoadConfig unmarshalled = Ok loaded ->
  extractCommand (New loaded) input
  = match extractCommand (New unmarshalled) input with
    | Ok (command, remainingInput) => Ok (generateCommand command, remainingInput)
    | Err err => Err err
    end.
Proof.
  intros Hload. destruct (LoadConfig_Ok _ _ Hload) as (Hcommands & _).
  unfold extractCommand. simpl config. rewrite Hcommands.
  destruct (Index input " "); rewrite findCommand_generated;
    by destruct (findCommand (Config.Commands unmarshalled) _).
Qed.

(** X21.  Loading a grammar does not change how a line resolves, and binds
    every text to the entity the line resolves to.  On the loaded grammar
    getHelpOutput returns the help of all commands for the empty input,
    the help text of the command when only its label is left, the help
    text of the resolved argument under that command otherwise, and the
    message of the resolution error when there is one, where command and
    argument are those the unmarshalled grammar resolves.  A line that is
    dispatched returns the message of the first resolution error, or else
    the placeholder that reports the [ExecFunc] of the resolved argument
    as not configured. *)
Theorem X21_loading_preserves_resolution :
  forall (unmarshalled loaded : Config.t) (input : string),
    LoadConfig unmarshalled = Ok loaded ->
    getHelpOutput (New loaded) input
    = (if input == "" then
         fold_left (fun output command => output +:+ Command.helpCmd command)
           (Config.Commands unmarshalled) ""
       else
         match extractCommand (New unmarshalled) input with
         | Err err => Error err +:+ LF
         | Ok (command, remainingInput) =>
             if remainingInput == "" then Command.helpCmd command
             else
               match extractArgument remainingInput command with
               | Err err => Error err +:+ LF
               | Ok (argument, _) => Command.helpArg command argument
               end
         end) /\
    (Trim input whitespaceCharacters <> "" ->
     Trim input whitespaceCharacters <> Config.ExitCmd unmarshalled ->
     HasSuffix (Trim input whitespaceCharacters) (Config.HelpCmd unmarshalled) = false ->
     getOutput (New loaded) input
     = (match extractCommand (New unmarshalled) (Trim input whitespaceCharacters) with
        | Err err => Error err +:+ LF
        | Ok (command, remainingInput) =>
            match extractArgument remainingInput command with
            | Err err => Error err +:+ LF
            | Ok (argument, optionsInput) =>
                match extractFlags optionsInput argument with
                | Err err => Error err +:+ LF
                | Ok _ =>
                    quoted (Argument.ExecFunc argument) +:+ " is not configured" +:+ LF
                end
            end
        end,
        New loaded)).
Proof.
  intros unmarshalled loaded input Hload.
  destruct (LoadConfig_Ok _ _ Hload) as (Hcommands & HexitCmd & HhelpCmd).
  split.
  - unfold getHelpOutput. destruct (input == "").
    + simpl config. apply (LoadConfig_help _ _ Hload).
    + rewrite (extractCommand_loaded _ _ _ Hload).
      destruct (extractCommand (New unmarshalled) input) as [[c rem]|e]; [|done].
      destruct (rem == ""); [apply helpCmd_generated|].
      rewrite extractArgument_generated.
      by destruct (extractArgument rem c) as [[a o]|e].
  - intros Hne Hexit Hhelp. unfold getOutput. simpl config.
    rewrite HexitCmd, HhelpCmd, Hhelp.
    apply String.eqb_neq in Hne, Hexit. rewrite Hne, Hexit.
    rewrite (extractCommand_loaded _ _ _ Hload).
    destruct (extractCommand (New unmarshalled) _) as [[c rem]|e]; [|done].
    rewrite extractArgument_generated.
    destruct (extractArgument rem c) as [[a o]|e]; [|done].
    change (extractFlags o (generateArgument c a)) with (extractFlags o a).
    by destruct (extractFlags o a).
Qed.

Lemma X21_witness :
  getHelpOutput Example.app "show daily-tasks"
  = Command.helpArg Example.show Example.dailyTasks.
Proof.
  refine (eq_trans (proj1 (X21_loading_preserves_resolution Example.unmarshalled
                             Example.grammar "show daily-tasks" _)) _).
  - reflexivity.
  - vm_compute. reflexivity.
Defined.

(** ** Binding a program *)

Section WithProgram.

Variable program : Program.

Lemma getExecutable_inl (funcName : string) (action : Flags -> string) :
  getExecutable program funcName = inl action <-> method program funcName = Some action.
Proof.
  unfold getExecutable. destruct (method program funcName); split; congruence.
Qed.

Lemma getExecutable_inr (funcName message : string) :
  getExecutable program funcName = inr message ->
  method program funcName = None /\
  message = "unable to find method " +:+ quoted funcName +:+ " for type "
              +:+ quoted (typeName program).
Proof.
  unfold getExecutable. destruct (method program funcName); [done|]. by intros [= <-].
Qed.

Lemma withProgramArguments_inl (arguments arguments' : list Argument.t) :
  withProgramArguments program arguments = inl arguments' ->
  Forall2 (boundArgument program) arguments arguments'.
Proof.
  revert arguments'. induction arguments as [|a rest IH]; intros arguments'; simpl.
  - intros [= <-]. constructor.
  - destruct (String.eqb_spec (Argument.ExecFunc a) "") as [Hempty|Hne]; simpl.
    + destruct (withProgramArguments program rest) as [rest'|]; [|done].
      intros [= <-]. constructor; [|by apply IH].
      unfold boundArgument. by repeat split.
    + destruct (getExecutable program (Argument.ExecFunc a)) as [action|] eqn:Hget; [|done].
      destruct (withProgramArguments program rest) as [rest'|]; [|done].
      intros [= <-]. constructor; [|by apply IH].
      unfold boundArgument. simpl. repeat split; try done.
      intros _. by apply getExecutable_inl.
Qed.

Lemma withProgramArguments_succeeds (arguments : list Argument.t) :
  (exists arguments', withProgramArguments program arguments = inl arguments') <->
  (forall a, In a arguments -> Argument.ExecFunc a <> "" ->
             exists action, method program (Argument.ExecFunc a) = Some action).
Proof.
  induction arguments as [|a rest IH]; simpl.
  - split; [by intros _ a []|eauto].
  - unfold getExecutable.
    destruct (String.eqb_spec (Argument.ExecFunc a) "") as [Hempty|Hne]; simpl.
    + destruct (withProgramArguments program rest) as [rest'|message].
      * split; [|eauto]. intros _ a' [<-|Hin]; [done|].
        apply (proj1 IH); eauto.
      * split; [by intros [? ?]|]. intros Hall.
        destruct (proj2 IH) as [? ?]; [|done]. intros a' Hin. apply Hall. by right.
    + destruct (method program (Argument.ExecFunc a)) as [action|] eqn:Hm.
      * destruct (withProgramArguments program rest) as [rest'|message].
        -- split; [|eauto]. intros _ a' [<-|Hin]; [eauto|].
           apply (proj1 IH); eauto.
        -- split; [by intros [? ?]|]. intros Hall.
           destruct (proj2 IH) as [? ?]; [|done]. intros a' Hin. apply Hall. by right.
      * split; [by intros [? ?]|]. intros Hall.
        destruct (Hall a (or_introl eq_refl) Hne) as [? ?]. congruence.
Qed.

Lemma withProgramCommands_inl (commands commands' : list Command.t) :
  withProgramCommands program commands = inl commands' ->
  Forall2 (boundCommand program) commands commands'.
Proof.
  revert commands'. induction commands as [|c rest IH]; intros commands'; simpl.
  - intros [= <-]. constructor.
  - destruct (withProgramArguments program (Command.Arguments c)) as [arguments|] eqn:Ha;
      [|done].
    destruct (withProgramCommands program rest) as [rest'|]; [|done].
    intros [= <-]. constructor; [|by apply IH].
    unfold boundCommand. simpl. repeat split. by apply withProgramArguments_inl.
Qed.

Lemma withProgramCommands_succeeds (commands : list Command.t) :
  (exists commands', withProgramCommands program commands = inl commands') <->
  (forall c a, In c commands -> In a (Command.Arguments c) ->
               Argument.ExecFunc a <> "" ->
               exists action, method program (Argument.ExecFunc a) = Some action).
Proof.
  induction commands as [|c rest IH]; simpl.
  - split; [by intros _ c a []|eauto].
  - destruct (withProgramArguments program (Command.Arguments c)) as [arguments|message]
      eqn:Ha.
    + assert (Hargs : forall a, In a (Command.Arguments c) -> Argument.ExecFunc a <> "" ->
                                exists action, method program (Argument.ExecFunc a) = Some action)
        by (apply withProgramArguments_succeeds; eauto).
      destruct (withProgramCommands program rest) as [rest'|message].
      * split; [|eauto]. intros _ c' a' [<-|Hin]; [by apply Hargs|].
        apply (proj1 IH); eauto.
      * split; [by intros [? ?]|]. intros Hall.
        destruct (proj2 IH) as [? ?]; [|done]. intros c' a' Hin. apply Hall. by right.
    + split; [by intros [? ?]|]. intros Hall.
      destruct (proj2 (withProgramArguments_succeeds (Command.Arguments c))) as [? ?];
        [|congruence].
      intros a Hin. apply (Hall c a); [by left | done].
Qed.

End WithProgram.

(** X22.  withProgram succeeds exactly when the program has a method (of
    the executable type) for the init function, for the exit function and
    for the non-empty [ExecFunc] of every argument; an argument with an
    empty [ExecFunc] needs none.  When it fails, the message names a
    function that the program lacks. *)
Theorem X22_withProgram_succeeds_iff :
  forall (config : Config.t) (program : Program),
    ((exists config', withProgram config program = inl config') <->
     (exists init, method program (Config.InitFunc config) = Some init) /\
     (exists exit, method program (Config.ExitFunc config) = Some exit) /\
     (forall c a, In c (Config.Commands config) -> In a (Command.Arguments c) ->
                  Argument.ExecFunc a <> "" ->
                  exists action, method program (Argument.ExecFunc a) = Some action)) /\
    (forall message,
        withProgram config program = inr message ->
        exists funcName,
          method program funcName = None /\
          message = "unable to find method " +:+ quoted funcName +:+ " for type "
                      +:+ quoted (typeName program)).
Proof.
  intros config program. split.
  - unfold withProgram, getExecutable.
    destruct (method program (Config.InitFunc config)) as [init|];
      [|split; [by intros [? ?] | by intros [[? ?] _]]].
    destruct (method program (Config.ExitFunc config)) as [exit|];
      [|split; [by intros [? ?] | by intros (_ & [? ?] & _)]].
    destruct (withProgramCommands program (Config.Commands config)) as [commands|message]
      eqn:Hc.
    + split; [|eauto]. intros _. split; [eauto|]. split; [eauto|].
      apply withProgramCommands_succeeds. eauto.
    + split; [by intros [? ?]|]. intros (_ & _ & Hall).
      apply withProgramCommands_succeeds in Hall as [? ?]. congruence.
  - intros message. unfold withProgram.
    destruct (getExecutable program (Config.InitFunc config)) as [init|m] eqn:Hi.
    2: { intros [= <-]. apply getExecutable_inr in Hi. eauto. }
    destruct (getExecutable program (Config.ExitFunc config)) as [exit|m] eqn:He.
    2: { intros [= <-]. apply getExecutable_inr in He. eauto. }
    destruct (withProgramCommands program (Config.Commands config)) as [commands|m] eqn:Hc;
      [done|].
    intros [= <-]. clear Hi He. revert m Hc.
    induction (Config.Commands config) as [|c rest IH]; intros m; simpl; [done|].
    destruct (withProgramArguments program (Command.Arguments c)) as [arguments|m'] eqn:Ha.
    + destruct (withProgramCommands program rest) as [rest'|m'']; [done|].
      intros [= <-]. by apply IH.
    + intros [= <-]. clear IH. revert m' Ha.
      induction (Command.Arguments c) as [|a args IHa]; intros m'; simpl; [done|].
      destruct (Argument.ExecFunc a != "").
      * destruct (getExecutable program (Argument.ExecFunc a)) as [action|m''] eqn:Hg.
        -- destruct (withProgramArguments program args) as [args'|m3]; [done|].
           intros [= <-]. by apply IHa.
        -- intros [= <-]. apply getExecutable_inr in Hg. eauto.
      * destruct (withProgramArguments program args) as [args'|m3]; [done|].
        intros [= <-]. by apply IHa.
Qed.

(** X23.  After a successful withProgram the configuration has the same
    prompt, exit and help commands, help closures, labels, options and
    help messages as before; init and exit are the program's methods;
    every argument with a non-empty [ExecFunc] runs the program's method of
    that name, and every other argument keeps its executable. *)
Theorem X23_withProgram_binds_methods :
  forall (config config' : Config.t) (program : Program),
    withProgram config program = inl config' ->
    Config.Prompt config' = Config.Prompt config /\
    Config.ExitCmd config' = Config.ExitCmd config /\
    Config.HelpCmd config' = Config.HelpCmd config /\
    Config.help config' = Config.help config /\
    method program (Config.InitFunc config) = Some (Config.init config') /\
    method program (Config.ExitFunc config) = Some (Config.exit config') /\
    Forall2 (boundCommand program) (Config.Commands config) (Config.Commands config').
Proof.
  intros config config' program. unfold withProgram.
  destruct (getExecutable program (Config.InitFunc config)) as [init|] eqn:Hi; [|done].
  destruct (getExecutable program (Config.ExitFunc config)) as [exit|] eqn:He; [|done].
  destruct (withProgramCommands program (Config.Commands config)) as [commands|] eqn:Hc;
    [|done].
  intros [= <-]. simpl.
  apply getExecutable_inl in Hi, He. apply withProgramCommands_inl in Hc.
  by repeat split.
Qed.

Lemma X23_witness :
  method ExampleProgram.program "Setup" = Some (Config.init (config ExampleProgram.app)).
Proof.
  refine (proj1 (proj2 (proj2 (proj2 (proj2
            (X23_withProgram_binds_methods Example.grammar (config ExampleProgram.app)
               ExampleProgram.program _)))))).
  reflexivity.
Defined.

(** With the README program bound, a resolved line runs the method named
    by the argument on the resolved flags. *)
Lemma Example_dispatch :
  fst (getOutput ExampleProgram.app "show daily-tasks -r extra") = "MyFunc2 extra" /\
  fst (getOutput ExampleProgram.app "show -r") = "MyFunc -r" /\
  fst (getOutput ExampleProgram.app "show") = "MyFunc".
Proof. repeat split; vm_compute; reflexivity. Qed.

Lemma tokenLoop_bare_expecting (options : list Option.t) (tokens : list string)
    (st : scan) :
  expectingValue st = true ->
  (forall t, In t tokens -> HasPrefix t "-" = false) ->
  tokenLoop options tokens st = Ok st.
Proof.
  intros Hev. induction tokens as [|t tokens IH]; intros Hbare; [done|].
  simpl. destruct (t == ""); [apply IH; intros; apply Hbare; by right|].
  rewrite (Hbare t (or_introl eq_refl)), Hev. simpl.
  apply IH. intros t' Hin. apply Hbare. by right.
Qed.

(** X24.  After a short-form option with a Variable, any number of tokens
    without a leading dash is accepted: the first one is the value, the
    others are dropped without an error and without a trace in the flags,
    because [expectingValue] stays set for the rest of the scan. *)
Theorem X24_words_after_a_value_are_dropped :
  forall (options : list Option.t) (s next : string) (rest : list string) (st : scan)
         (option : Option.t) (va : Variable_.t),
    HasPrefix s "-" = true ->
    findOption options s = Some option ->
    Option.Short option = s ->
    Option.Variable_ option = Some va ->
    HasPrefix next "-" = false ->
    (forall t, In t rest -> HasPrefix t "-" = false) ->
    tokenLoop options (s :: next :: rest) st
    = Ok (setFlag st (Option.Label option)
            {| isset := true; hasVar := true; variable := next |} true).
Proof.
  intros options s next rest st option va Hdash Hfind Hshort Hva Hnext Hrest.
  rewrite (tokenLoop_dash _ _ _ _ _ Hdash Hfind).
  unfold matchedOption, bind. apply String.eqb_eq in Hshort.
  rewrite Hva, Hshort. simpl head. cbv iota beta.
  apply tokenLoop_bare_expecting; [done|].
  intros t [<-|Hin]; [done | by apply Hrest].
Qed.

Lemma X24_witness :
  tokenLoop [Example.readOnlyVar4] ["-r"; "extra"; "junk"; "more"]
    {| metadata := ∅; expectingValue := false |}
  = Ok (setFlag {| metadata := ∅; expectingValue := false |} "readOnly"
          {| isset := true; hasVar := true; variable := "extra" |} true).
Proof.
  apply (X24_words_after_a_value_are_dropped [Example.readOnlyVar4] "-r" "extra"
           ["junk"; "more"] {| metadata := ∅; expectingValue := false |}
           Example.readOnlyVar4 Example.var4); try reflexivity.
  intros t [<-|[<-|[]]]; reflexivity.
Defined.

(** ** Help texts *)

Lemma append_cancel_l (a x y : string) : a +:+ x = a +:+ y -> x = y.
Proof.
  induction a as [|c a IH]; [done|].
  rewrite !append_cons. intros [= H]. by apply IH.
Qed.

Lemma fold_left_append_prefix {A : Type} (f : A -> string) (l : list A)
    (prefix acc : string) :
  fold_left (fun desc x => desc +:+ f x) l (prefix +:+ acc)
  = prefix +:+ fold_left (fun desc x => desc +:+ f x) l acc.
Proof.
  revert acc. induction l as [|x l IH]; intros acc; [done|].
  simpl. by rewrite append_assoc, IH.
Qed.

(** X25.  The help text of a command is never the help text of one of
    its arguments: both start with the usage line of the command label,
    after which the command help has a line break and the argument help a
    space.  A line that gets the command help therefore never shows the
    help of an argument, whatever the grammar. *)
Theorem X25_command_help_is_not_an_argument_help :
  forall (cmd : Command.t) (arg : Argument.t),
    Command.helpCmd cmd <> Command.helpArg cmd arg.
Proof.
  intros cmd arg. unfold Command.helpCmd, Command.helpArg.
  rewrite (fold_left_append_prefix
             (fun a => Command.Label cmd +:+ " " +:+ Argument.helpArg a)
             (Command.Arguments cmd) LF).
  intros H. apply append_cancel_l in H.
  rewrite (fold_left_append_prefix
             (fun a => Command.Label cmd +:+ " " +:+ Argument.helpArg a)
             (Command.Arguments cmd) "Usage: ") in H.
  apply append_cancel_l in H.
  rewrite (fold_left_append_prefix
             (fun a => Command.Label cmd +:+ " " +:+ Argument.helpArg a)
             (Command.Arguments cmd) (Command.Label cmd)) in H.
  apply append_cancel_l in H.
  rewrite (fold_left_append_prefix
             (fun a => Command.Label cmd +:+ " " +:+ Argument.helpArg a)
             (Command.Arguments cmd) LF) in H.
  discriminate H.
Qed.

(** ** Instances on the example grammar *)

Lemma X1_witness :
  TrimLeft (Argument.Label Example.dailyTasks) " " = Argument.Label Example.dailyTasks.
Proof.
  refine (proj1 (proj2 (proj1 (X1_Argument_validate_accepts_iff Example.dailyTasks) _))).
  vm_compute. reflexivity.
Defined.

Lemma X3_witness : NoDup (List.map Argument.Label (Command.Arguments Example.show)).
Proof.
  refine (proj2 (proj2 (proj2 (proj2
            (proj1 (X3_Command_validate_accepts_iff Example.show) _))))).
  vm_compute. reflexivity.
Defined.

Lemma X4_witness : Config.Commands Example.unmarshalled <> [].
Proof.
  refine (proj1 (proj2 (proj2 (proj1 (X4_LoadConfig_succeeds_iff Example.unmarshalled) _)))).
  exists Example.grammar. reflexivity.
Defined.

Lemma X9_witness : Index "show" " " = None.
Proof. exact (proj1 (X9_extractCommand_first_word Example.app "show daily-tasks")). Defined.

Lemma X10_witness :
  exists found, extractArgument "weekly-tasks" Example.show = Ok found.
Proof.
  refine (proj2 (proj2 (X10_extractArgument_fails_iff Example.show "weekly-tasks"))
            Example.noArguments _ _).
  - by left.
  - reflexivity.
Defined.

Lemma X22_witness :
  exists action, method ExampleProgram.program (Config.InitFunc Example.grammar) = Some action.
Proof.
  refine (proj1 (proj1 (proj1 (X22_withProgram_succeeds_iff Example.grammar
                                 ExampleProgram.program)) _)).
  exists (config ExampleProgram.app). reflexivity.
Defined.
